(** * moz-context-search: keyword-bookmark search pipeline (src/index.js)

    A shallow embedding of the part of [index.js] that turns the bookmarks
    tagged for search into menu entries and builds the request for one of
    them:

      MCS.getKeywordBookmarksForTag, MCS.keywordResultsToBookmarks,
      MCS.keywordResultToBookmark, MCS.promiseAllBookmarksWithFavicons,
      MCS.resolveBookmarkFavicon, MCS.sortBookmarksByTitle, the promise
      chain at the end of MCS.onPopupShown, and the [getSubmission] closure
      of MCS.addKeywordBookmarkMenuitem.

    JavaScript strings are sequences of UTF-16 code units; exceptions and
    promise rejections are explicit results; objects that the code mutates
    live in a store of references. *)

From Stdlib Require Import ZArith NArith List String Ascii Lia Permutation Sorted.
From stdpp Require Import base option list gmap.

Set Default Proof Using "Type".
Local Open Scope N_scope.

(* ===================================================================== *)
(** ** JavaScript strings *)
(* ===================================================================== *)

(** A JS string: its UTF-16 code units, each below 65536. *)
Definition jsstring := list N.

(** An ASCII literal as a JS string. *)
Definition str (s : string) : jsstring :=
  map N_of_ascii (list_ascii_of_string s).

(** JS truthiness of a string: only the empty string is falsy. *)
Definition truthy (s : jsstring) : bool :=
  match s with [] => false | _ => true end.

(* ===================================================================== *)
(** ** Exceptions and settled promises *)
(* ===================================================================== *)

Inductive error : Type :=
  | URIError                  (* thrown by encode/decodeURIComponent *)
  | TypeError                 (* property access on null or undefined *)
  | NS_ERROR_MALFORMED_URI    (* thrown by Services.io.newURI *)
  | PlacesError (code : N).   (* a rejection coming from the Places store *)

(** The outcome of a call: a returned value or a thrown exception.  The same
    type describes a settled promise: [Return] is resolved, [Throw] is
    rejected. *)
Inductive result (A : Type) : Type :=
  | Return (a : A)
  | Throw (e : error).
Arguments Return {A} a.
Arguments Throw {A} e.

Definition bind {A B} (r : result A) (k : A -> result B) : result B :=
  match r with
  | Return a => k a
  | Throw e => Throw e
  end.

Notation "x <- c1 ;; c2" := (bind c1 (fun x => c2))
  (at level 100, c1 at next level, right associativity).

(** [array.map(f)] where [f] may throw: the first exception, in index order,
    leaves the loop. *)
Fixpoint mapM {A B} (f : A -> result B) (l : list A) : result (list B) :=
  match l with
  | [] => Return []
  | a :: l' => b <- f a ;; bs <- mapM f l' ;; Return (b :: bs)
  end.

(** [Promise.all]: resolved with all the values when every promise resolves,
    rejected as soon as one of them rejects.  The promises are taken as
    already settled, so the rejection reported is the first one in index
    order. *)
Fixpoint Promise_all {A} (ps : list (result A)) : result (list A) :=
  match ps with
  | [] => Return []
  | p :: ps' => a <- p ;; rest <- Promise_all ps' ;; Return (a :: rest)
  end.

(* ===================================================================== *)
(** ** Built-ins: encodeURIComponent *)
(* ===================================================================== *)

Definition isAlpha (c : N) : bool :=
  ((65 <=? c) && (c <=? 90)) || ((97 <=? c) && (c <=? 122)).
Definition isDigit (c : N) : bool := (48 <=? c) && (c <=? 57).

(** uriMark: - _ . ! ~ * ' ( ) *)
Definition uriMark : list N := [45; 95; 46; 33; 126; 42; 39; 40; 41].

Definition uriUnreserved (c : N) : bool :=
  isAlpha c || isDigit c || bool_decide (c ∈ uriMark).

Definition hexDigit (n : N) : N := if n <? 10 then 48 + n else 55 + n.

(** One octet as [%XX], upper-case hexadecimal. *)
Definition pct (b : N) : jsstring := [37; hexDigit (b / 16); hexDigit (b mod 16)].

(** The UTF-8 octets of a code point. *)
Definition utf8 (v : N) : list N :=
  if v <? 128 then [v]
  else if v <? 2048 then [192 + v / 64; 128 + v mod 64]
  else if v <? 65536 then
    [224 + v / 4096; 128 + (v / 64) mod 64; 128 + v mod 64]
  else
    [240 + v / 262144; 128 + (v / 4096) mod 64;
     128 + (v / 64) mod 64; 128 + v mod 64].

Definition isHighSurrogate (c : N) : bool := (55296 <=? c) && (c <=? 56319).
Definition isLowSurrogate (c : N) : bool := (56320 <=? c) && (c <=? 57343).

Definition pctEncode (v : N) : jsstring := concat (map pct (utf8 v)).

(** ECMAScript Encode(string, uriUnreserved). *)
Fixpoint encodeURIComponent (s : jsstring) : result jsstring :=
  match s with
  | [] => Return []
  | c :: rest =>
      if uriUnreserved c then
        r <- encodeURIComponent rest ;; Return (c :: r)
      else if isLowSurrogate c then Throw URIError
      else if isHighSurrogate c then
        match rest with
        | [] => Throw URIError
        | k :: rest' =>
            if isLowSurrogate k then
              r <- encodeURIComponent rest' ;;
              Return (pctEncode ((c - 55296) * 1024 + (k - 56320) + 65536) ++ r)
            else Throw URIError
        end
      else
        r <- encodeURIComponent rest ;; Return (pctEncode c ++ r)
  end.

(* ===================================================================== *)
(** ** Built-ins: String.prototype.replace with a global literal pattern *)
(* ===================================================================== *)

Fixpoint starts_with (pat s : jsstring) : bool :=
  match pat, s with
  | [], _ => true
  | p :: pat', c :: s' => (p =? c) && starts_with pat' s'
  | _ :: _, [] => false
  end.

(** [/pat/.test(s)] for a pattern without metacharacters. *)
Fixpoint regex_test (pat s : jsstring) : bool :=
  starts_with pat s ||
  match s with
  | [] => false
  | _ :: s' => regex_test pat s'
  end.

(** GetSubstitution for a pattern without capture groups: [$$] is a dollar
    sign, [$&] the matched text, [$`] the text before the match, [$'] the
    text after it; a dollar sign followed by anything else stays. *)
Fixpoint GetSubstitution (matched before after replacement : jsstring) : jsstring :=
  match replacement with
  | [] => []
  | c :: rest =>
      if c =? 36 then
        match rest with
        | [] => [36]
        | d :: rest' =>
            if d =? 36 then 36 :: GetSubstitution matched before after rest'
            else if d =? 38 then matched ++ GetSubstitution matched before after rest'
            else if d =? 96 then before ++ GetSubstitution matched before after rest'
            else if d =? 39 then after ++ GetSubstitution matched before after rest'
            else 36 :: GetSubstitution matched before after rest
        end
      else c :: GetSubstitution matched before after rest
  end.

(** [s.replace(/pat/g, replacement)]: matches are taken left to right and do
    not overlap.  [before] is the text already scanned, [skip] the number of
    code units of the current match still to pass over. *)
Fixpoint replace_from (pat replacement before : jsstring) (skip : nat)
    (s : jsstring) : jsstring :=
  match s with
  | [] => []
  | c :: rest =>
      match skip with
      | S k => replace_from pat replacement (before ++ [c]) k rest
      | O =>
          if starts_with pat s then
            GetSubstitution pat before (drop (length pat) s) replacement
              ++ replace_from pat replacement (before ++ [c]) (length pat - 1) rest
          else c :: replace_from pat replacement (before ++ [c]) 0 rest
      end
  end.

Definition String_replace (s pat replacement : jsstring) : jsstring :=
  replace_from pat replacement [] 0 s.

(** The substitution marker [%s] and the encoded space [%20]. *)
Definition marker : jsstring := str "%s".
Definition pct20 : jsstring := str "%20".
Definition plus : jsstring := str "+".

(* ===================================================================== *)
(** ** Built-ins: decodeURIComponent and base64 *)
(* ===================================================================== *)

Definition hexValue (c : N) : option N :=
  if isDigit c then Some (c - 48)
  else if (65 <=? c) && (c <=? 70) then Some (c - 55)
  else if (97 <=? c) && (c <=? 102) then Some (c - 87)
  else None.

(** A code unit copied as it is, or an octet written as [%XX]. *)
Inductive piece : Type := Lit (c : N) | Octet (b : N).

Fixpoint unescape (s : jsstring) : result (list piece) :=
  match s with
  | [] => Return []
  | c :: rest =>
      if c =? 37 then
        match rest with
        | h :: l :: rest' =>
            match hexValue h, hexValue l with
            | Some a, Some b => r <- unescape rest' ;; Return (Octet (16 * a + b) :: r)
            | _, _ => Throw URIError
            end
        | _ => Throw URIError
        end
      else r <- unescape rest ;; Return (Lit c :: r)
  end.

Definition isContinuation (b : N) : bool := (128 <=? b) && (b <=? 191).

Definition utf16 (v : N) : jsstring :=
  if v <? 65536 then [v]
  else [55296 + (v - 65536) / 1024; 56320 + (v - 65536) mod 1024].

(** The octets must be well-formed UTF-8: no stray continuation octet, no
    overlong form, no surrogate, nothing above U+10FFFF. *)
Fixpoint assemble (ps : list piece) : result jsstring :=
  match ps with
  | [] => Return []
  | Lit c :: rest => r <- assemble rest ;; Return (c :: r)
  | Octet b :: rest =>
      if b <? 128 then r <- assemble rest ;; Return (b :: r)
      else if b <? 192 then Throw URIError
      else if b <? 224 then
        match rest with
        | Octet b1 :: rest' =>
            let v := (b - 192) * 64 + (b1 - 128) in
            if isContinuation b1 && (128 <=? v)
            then r <- assemble rest' ;; Return (v :: r)
            else Throw URIError
        | _ => Throw URIError
        end
      else if b <? 240 then
        match rest with
        | Octet b1 :: Octet b2 :: rest' =>
            let v := (b - 224) * 4096 + (b1 - 128) * 64 + (b2 - 128) in
            if isContinuation b1 && isContinuation b2 && (2048 <=? v)
               && negb ((55296 <=? v) && (v <=? 57343))
            then r <- assemble rest' ;; Return (v :: r)
            else Throw URIError
        | _ => Throw URIError
        end
      else if b <? 248 then
        match rest with
        | Octet b1 :: Octet b2 :: Octet b3 :: rest' =>
            let v := (b - 240) * 262144 + (b1 - 128) * 4096
                     + (b2 - 128) * 64 + (b3 - 128) in
            if isContinuation b1 && isContinuation b2 && isContinuation b3
               && (65536 <=? v) && (v <=? 1114111)
            then r <- assemble rest' ;; Return (utf16 v ++ r)
            else Throw URIError
        | _ => Throw URIError
        end
      else Throw URIError
  end.

(** ECMAScript Decode(string, empty reserved set). *)
Definition decodeURIComponent (s : jsstring) : result jsstring :=
  ps <- unescape s ;; assemble ps.

Definition b64char (n : N) : N :=
  if n <? 26 then 65 + n
  else if n <? 52 then 97 + (n - 26)
  else if n <? 62 then 48 + (n - 52)
  else if n =? 62 then 43 else 47.

(** [base64.encode] of the string made of the given octets. *)
Fixpoint base64_encode (octets : list N) : jsstring :=
  match octets with
  | [] => []
  | [a] => [b64char (a / 4); b64char ((a mod 4) * 16); 61; 61]
  | [a; b] =>
      [b64char (a / 4); b64char ((a mod 4) * 16 + b / 16);
       b64char ((b mod 16) * 4); 61]
  | a :: b :: c :: rest =>
      [b64char (a / 4); b64char ((a mod 4) * 16 + b / 16);
       b64char ((b mod 16) * 4 + c / 64); b64char (c mod 64)]
        ++ base64_encode rest
  end.

(* ===================================================================== *)
(** ** Data *)
(* ===================================================================== *)

(** An [nsIURI], seen through its [spec]. *)
Record nsIURI : Type := { spec : jsstring }.

(** What [PlacesUtils.keywords.fetch] resolves with when an entry exists:
    [url] is the [href] of the entry's URL object. *)
Record KeywordRecord : Type := {
  kr_keyword : jsstring;
  kr_url : jsstring;
  kr_postData : option jsstring;
}.

(** The object literal built by [MCS.keywordResultToBookmark]. *)
Record bookmark : Type := {
  id : N;
  description : jsstring;
  title : jsstring;
  url : jsstring;
  keyword : jsstring;
  iconURL : jsstring;
  postData : jsstring;
}.

(** What [PlacesUtils.promiseFaviconData] resolves with: [data] is the array
    of octets of the icon and [dataLen] the length the favicon service
    reports for it. *)
Record faviconData : Type := {
  mimeType : jsstring;
  data : list N;
  dataLen : N;
}.

(** The services of the browser that the pipeline reads: tagging, keywords,
    bookmarks, annotations, favicons, the URI parser, and the collation used
    by [localeCompare].  A promise-returning service is given by what its
    promise settles with. *)
Record platform : Type := {
  getURIsForTag : jsstring -> list nsIURI;
  keywords_fetch : jsstring -> result (option KeywordRecord);
  newURI : jsstring -> option nsIURI;
  getBookmarkIdsForURI : nsIURI -> list N;
  getItemType : N -> N;
  itemHasAnnotation : N -> bool;
  getItemAnnotation : N -> jsstring;
  getItemTitle : N -> jsstring;
  promiseFaviconData : jsstring -> result faviconData;
  defaultFavicon : jsstring;
  localeCompare : jsstring -> jsstring -> Z;
}.

(** nsINavBookmarksService item types. *)
Definition TYPE_BOOKMARK : N := 1.
Definition TYPE_FOLDER : N := 2.
Definition TYPE_SEPARATOR : N := 3.

(** The body of a POST request, an [nsIMIMEInputStream]. *)
Record MIMEInputStream : Type := {
  headers : list (jsstring * jsstring);
  addContentLength : bool;
  stream_data : jsstring;
}.

Record submission : Type := {
  uri : nsIURI;
  sub_postData : option MIMEInputStream;
}.

(* ===================================================================== *)
(** ** Resolution of the keyword bookmarks *)
(* ===================================================================== *)

(** [array.filter(Boolean)] on an array of objects and nulls. *)
Fixpoint filter_Boolean {A} (l : list (option A)) : list A :=
  match l with
  | [] => []
  | Some a :: l' => a :: filter_Boolean l'
  | None :: l' => filter_Boolean l'
  end.

(** [keywordResult.postData ? decodeURIComponent(keywordResult.postData) : ""] *)
Definition decodedPostData (kr : KeywordRecord) : result jsstring :=
  match kr_postData kr with
  | Some pd => if truthy pd then decodeURIComponent pd else Return []
  | None => Return []
  end.

(** MCS.keywordResultToBookmark.  The argument is an element of the array
    that [Promise.all] of the keyword lookups resolved with: an entry, or
    [null] when the URL has no keyword. *)
Definition keywordResultToBookmark (P : platform)
    (keywordResult : option KeywordRecord) : result (option bookmark) :=
  match keywordResult with
  | None => Throw TypeError
  | Some kr =>
      let keyword := kr_keyword kr in
      let url := kr_url kr in
      postData <- decodedPostData kr ;;
      if negb (regex_test marker url || regex_test marker postData) then
        Return None
      else
        match newURI P url with
        | None => Throw NS_ERROR_MALFORMED_URI
        | Some uri =>
            let bookmarkIds := getBookmarkIdsForURI P uri in
            let bookmarkId :=
              if (0 <? length bookmarkIds)%nat then
                find (fun id => getItemType P id =? TYPE_BOOKMARK) bookmarkIds
              else None in
            match bookmarkId with
            | None => Return None
            | Some bookmarkId =>
                if bookmarkId =? 0 then Return None
                else
                  let description :=
                    if itemHasAnnotation P bookmarkId
                    then getItemAnnotation P bookmarkId else [] in
                  let title := getItemTitle P bookmarkId in
                  Return (Some {| id := bookmarkId;
                                  description := description;
                                  title := title;
                                  url := url;
                                  keyword := keyword;
                                  iconURL := [];
                                  postData := postData |})
            end
        end
  end.

(** MCS.keywordResultsToBookmarks *)
Definition keywordResultsToBookmarks (P : platform)
    (keywordResults : list (option KeywordRecord)) : result (list bookmark) :=
  mapped <- mapM (keywordResultToBookmark P) keywordResults ;;
  Return (filter_Boolean mapped).

(** MCS.getKeywordBookmarksForTag *)
Definition getKeywordBookmarksForTag (P : platform) (tag : jsstring)
    : result (list (option KeywordRecord)) :=
  let uris := getURIsForTag P tag in
  let urls := map spec uris in
  let fetchingKeywords := map (fun url => keywords_fetch P url) urls in
  Promise_all fetchingKeywords.

(** [getKeywordBookmarksForTag(tag).then(keywordResults =>
      MCS.keywordResultsToBookmarks(keywordResults))], the first two links of
    the chain in MCS.onPopupShown: the candidates for a tag. *)
Definition getCandidates (P : platform) (tag : jsstring) : result (list bookmark) :=
  keywordResults <- getKeywordBookmarksForTag P tag ;;
  keywordResultsToBookmarks P keywordResults.

(* ===================================================================== *)
(** ** The submission of a keyword bookmark *)
(* ===================================================================== *)

(** [encodeURIComponent(searchText).replace(/%20/g, "+")] *)
Definition encodeText (searchText : jsstring) : result jsstring :=
  e <- encodeURIComponent searchText ;; Return (String_replace e pct20 plus).

Definition formContentType : jsstring * jsstring :=
  (str "Content-Type", str "application/x-www-form-urlencoded").

(** The [getSubmission] closure of MCS.addKeywordBookmarkMenuitem, for the
    state of the bookmark object at the time of the call. *)
Definition getSubmission (P : platform) (bookmark : bookmark)
    (searchText : jsstring) : result submission :=
  encodedText <- encodeText searchText ;;
  let url := String_replace (url bookmark) marker encodedText in
  match newURI P url with
  | None => Throw NS_ERROR_MALFORMED_URI
  | Some uri =>
      let postData :=
        if truthy (postData bookmark) then
          Some {| headers := [formContentType];
                  addContentLength := true;
                  stream_data :=
                    String_replace (postData bookmark) marker encodedText |}
        else None in
      Return {| uri := uri; sub_postData := postData |}
  end.

(* ===================================================================== *)
(** ** The store: bookmark objects and arrays *)
(* ===================================================================== *)

Definition loc := positive.

(** What an array of the pipeline can hold: a reference to a bookmark
    object, or a string. *)
Inductive value : Type :=
  | VObj (l : loc)
  | VStr (s : jsstring).

Record heap : Type := {
  objects : gmap loc bookmark;
  arrays : gmap loc (list value);
}.

Definition empty_heap : heap := {| objects := ∅; arrays := ∅ |}.

Definition set_iconURL (icon : jsstring) (b : bookmark) : bookmark :=
  {| id := id b; description := description b; title := title b;
     url := url b; keyword := keyword b; iconURL := icon;
     postData := postData b |}.

(** [Object.assign(target, { iconURL: icon })]: the object behind [target] is
    changed where it is. *)
Definition Object_assign_iconURL (target : loc) (icon : jsstring) (h : heap) : heap :=
  {| objects := alter (set_iconURL icon) target (objects h);
     arrays := arrays h |}.

(** A new object for an object literal. *)
Definition alloc_object (b : bookmark) (h : heap) : loc * heap :=
  let l := fresh (dom (objects h)) in
  (l, {| objects := <[l := b]> (objects h); arrays := arrays h |}).

Fixpoint alloc_objects (bs : list bookmark) (h : heap) : list loc * heap :=
  match bs with
  | [] => ([], h)
  | b :: bs' =>
      let '(l, h1) := alloc_object b h in
      let '(ls, h2) := alloc_objects bs' h1 in
      (l :: ls, h2)
  end.

(** A new array with the given elements. *)
Definition alloc_array (vs : list value) (h : heap) : loc * heap :=
  let a := fresh (dom (arrays h)) in
  (a, {| objects := objects h; arrays := <[a := vs]> (arrays h) |}).

(** [bookmark.url] and [x.title] read through a reference. *)
Definition url_at (h : heap) (l : loc) : jsstring :=
  match objects h !! l with Some b => url b | None => [] end.

(** [undefined] for a string, which has no such property. *)
Definition title_of (h : heap) (v : value) : option jsstring :=
  match v with
  | VObj l => title <$> objects h !! l
  | VStr _ => None
  end.

(* ===================================================================== *)
(** ** Favicons *)
(* ===================================================================== *)

(** [MCS.getDefaultFavicon = cache(() => pFavicons.defaultFavicon.spec)] *)
Definition getDefaultFavicon (P : platform) : jsstring := defaultFavicon P.

(** [`data:${data.mimeType};base64,${encodedData}`] *)
Definition dataURI (d : faviconData) : jsstring :=
  str "data:" ++ mimeType d ++ str ";base64," ++ base64_encode (data d).

(** MCS.resolveBookmarkFavicon: the value its promise resolves with, and the
    store after its callback has run.  The promise never rejects: the
    [catch] handler turns a rejection into a value, and the [then] callback,
    which builds a string from octets and encodes it, does not throw. *)
Definition resolveBookmarkFavicon (P : platform) (bookmark : loc) (h : heap)
    : value * heap :=
  match promiseFaviconData P (url_at h bookmark) with
  | Return data =>
      if dataLen data =? 0 then (VStr (getDefaultFavicon P), h)
      else (VObj bookmark, Object_assign_iconURL bookmark (dataURI data) h)
  | Throw e =>
      (VObj bookmark, Object_assign_iconURL bookmark (getDefaultFavicon P) h)
  end.

(** [bookmarks.map(MCS.resolveBookmarkFavicon)], callbacks run in index
    order. *)
Fixpoint resolveFavicons (P : platform) (bookmarks : list loc) (h : heap)
    : list value * heap :=
  match bookmarks with
  | [] => ([], h)
  | b :: rest =>
      let '(v, h1) := resolveBookmarkFavicon P b h in
      let '(vs, h2) := resolveFavicons P rest h1 in
      (v :: vs, h2)
  end.

(** MCS.promiseAllBookmarksWithFavicons.  [map] only reads its receiver, so
    the input array is given by its elements; [Promise.all] resolves with a
    new array. *)
Definition promiseAllBookmarksWithFavicons (P : platform) (bookmarks : list loc)
    (h : heap) : loc * heap :=
  let '(vs, h1) := resolveFavicons P bookmarks h in
  alloc_array vs h1.

(* ===================================================================== *)
(** ** Sorting by title *)
(* ===================================================================== *)

(** [Array.prototype.sort] with a comparator that may throw.  The engine's
    sort is stable; for a consistent comparator its result is that of this
    insertion sort, which puts an element before the first one it does not
    come after. *)
Fixpoint insert_sorted {A} (cmp : A -> A -> result Z) (x : A) (l : list A)
    : result (list A) :=
  match l with
  | [] => Return [x]
  | y :: l' =>
      c <- cmp x y ;;
      if (0 <? c)%Z then r <- insert_sorted cmp x l' ;; Return (y :: r)
      else Return (x :: y :: l')
  end.

Fixpoint Array_sort {A} (cmp : A -> A -> result Z) (l : list A) : result (list A) :=
  match l with
  | [] => Return []
  | x :: l' => s <- Array_sort cmp l' ;; insert_sorted cmp x s
  end.

(** [(a, b) => a.title.localeCompare(b.title)]: [a.title] undefined is a
    TypeError; [b.title] undefined is compared as the text "undefined". *)
Definition compareTitles (P : platform) (h : heap) (a b : value) : result Z :=
  match title_of h a with
  | None => Throw TypeError
  | Some ta =>
      Return (localeCompare P ta
                (match title_of h b with Some tb => tb | None => str "undefined" end))
  end.

(** MCS.sortBookmarksByTitle: the array behind [bookmarks] is sorted where it
    is and the same reference is returned. *)
Definition sortBookmarksByTitle (P : platform) (bookmarks : loc) (h : heap)
    : result loc * heap :=
  match arrays h !! bookmarks with
  | None => (Throw TypeError, h)
  | Some vs =>
      match Array_sort (compareTitles P h) vs with
      | Return sorted =>
          (Return bookmarks,
           {| objects := objects h; arrays := <[bookmarks := sorted]> (arrays h) |})
      | Throw e => (Throw e, h)
      end
  end.

(* ===================================================================== *)
(** ** The promise chain of MCS.onPopupShown *)
(* ===================================================================== *)

(** [getKeywordBookmarksForTag(tag).then(keywordResultsToBookmarks)
      .then(promiseAllBookmarksWithFavicons).then(sortBookmarksByTitle)].
    The object literals of [keywordResultToBookmark] become objects of the
    store when they enter the favicon stage. *)
Definition keywordBookmarks (P : platform) (tag : jsstring) (h : heap)
    : result loc * heap :=
  match getCandidates P tag with
  | Throw e => (Throw e, h)
  | Return bookmarks =>
      let '(refs, h1) := alloc_objects bookmarks h in
      let '(resolved, h2) := promiseAllBookmarksWithFavicons P refs h1 in
      sortBookmarksByTitle P resolved h2
  end.

(** How the last part of MCS.onPopupShown ends: the tag is empty and the
    chain is not started; the chain resolves and its array goes to
    [addKeywordBookmarksMenuitems]; or the final [catch(logError)] logs the
    rejection. *)
Inductive popup_outcome : Type :=
  | NotStarted
  | Menuitems (bookmarks : list value)
  | Logged (e : error).

Definition onPopupShown_keywordBookmarks (P : platform)
    (searchBookmarkTag : jsstring) (h : heap) : popup_outcome * heap :=
  if negb (truthy searchBookmarkTag) then (NotStarted, h)
  else
    match keywordBookmarks P searchBookmarkTag h with
    | (Return a, h') => (Menuitems (default [] (arrays h' !! a)), h')
    | (Throw e, h') => (Logged e, h')
    end.

(** The sequence of items a resolved chain hands over, read from the store. *)
Definition items (r : result loc * heap) : result (list value) :=
  match r with
  | (Return a, h) => Return (default [] (arrays h !! a))
  | (Throw e, _) => Throw e
  end.

(* ===================================================================== *)
(** ** The click handler *)
(* ===================================================================== *)

(** The part of MCS.onMenuClicked that asks the engine for its submission:
    the call is outside any [try], so what [getSubmission] throws leaves the
    handler; a missing [uri.spec] is logged and nothing is opened. *)
Inductive click_outcome : Type :=
  | Opened (searchURI : jsstring) (postData : option MIMEInputStream)
  | Warned.

Definition onMenuClicked_submission (P : platform) (bookmark : bookmark)
    (searchText : jsstring) : result click_outcome :=
  submission <- getSubmission P bookmark searchText ;;
  if negb (truthy (spec (uri submission))) then Return Warned
  else Return (Opened (spec (uri submission)) (sub_postData submission)).

(* ===================================================================== *)
(** ** Notions used to state the properties *)
(* ===================================================================== *)

(** [sep] written between consecutive segments. *)
Fixpoint join (sep : jsstring) (segs : list jsstring) : jsstring :=
  match segs with
  | [] => []
  | [s] => s
  | s :: segs' => s ++ sep ++ join sep segs'
  end.

(** [pat] occurs in [s]. *)
Definition occurs (pat s : jsstring) : Prop :=
  exists pre post, s = pre ++ pat ++ post.

(** A template cut at its markers: no segment contains the marker. *)
Definition segmented (template : jsstring) (segs : list jsstring) : Prop :=
  template = join marker segs /\ Forall (fun s => ~ occurs marker s) segs.

(** The [uri.spec] of a submission. *)
Definition submission_spec (r : result submission) : result jsstring :=
  s <- r ;; Return (spec (uri s)).

(** Following the specification's words for [encode]: the percent-encoding of
    the text by the rules of a URI component, where a space is written [+]
    and not [%20]. *)
Definition formUnit (v : N) : jsstring :=
  if v =? 32 then plus else pctEncode v.

Fixpoint formEncode (s : jsstring) : result jsstring :=
  match s with
  | [] => Return []
  | c :: rest =>
      if uriUnreserved c then
        r <- formEncode rest ;; Return (c :: r)
      else if isLowSurrogate c then Throw URIError
      else if isHighSurrogate c then
        match rest with
        | [] => Throw URIError
        | k :: rest' =>
            if isLowSurrogate k then
              r <- formEncode rest' ;;
              Return (pctEncode ((c - 55296) * 1024 + (k - 56320) + 65536) ++ r)
            else Throw URIError
        end
      else
        r <- formEncode rest ;; Return (formUnit c ++ r)
  end.

(** Global replacement by a text that is copied as it is. *)
Fixpoint replace_plain (pat replacement : jsstring) (skip : nat) (s : jsstring)
    : jsstring :=
  match s with
  | [] => []
  | c :: rest =>
      match skip with
      | S k => replace_plain pat replacement k rest
      | O =>
          if starts_with pat s then
            replacement ++ replace_plain pat replacement (length pat - 1) rest
          else c :: replace_plain pat replacement 0 rest
      end
  end.

(** Stable insertion sort for a comparator that does not throw. *)
Fixpoint insert_pure {A} (cmp : A -> A -> Z) (x : A) (l : list A) : list A :=
  match l with
  | [] => [x]
  | y :: l' => if (0 <? cmp x y)%Z then y :: insert_pure cmp x l' else x :: y :: l'
  end.

Fixpoint sort_pure {A} (cmp : A -> A -> Z) (l : list A) : list A :=
  match l with
  | [] => []
  | x :: l' => insert_pure cmp x (sort_pure cmp l')
  end.

(** The title behind a value of the store, for values that are bookmark
    objects. *)
Definition title_at (h : heap) (v : value) : jsstring :=
  default [] (title_of h v).

(** The comparator of the sort on two bookmark objects of the store. *)
Definition compare_at (P : platform) (h : heap) (x y : value) : Z :=
  localeCompare P (title_at h x) (title_at h y).

(** [x] does not come after [y]. *)
Definition comes_before {A} (cmp : A -> A -> Z) (x y : A) : Prop :=
  (cmp x y <= 0)%Z.

Definition is_bookmark (h : heap) (v : value) : Prop :=
  exists l b, v = VObj l /\ objects h !! l = Some b.

(** A collation is consistent: a total preorder read off the sign. *)
Record consistent (cmp : jsstring -> jsstring -> Z) : Prop := {
  cmp_refl : forall a, cmp a a = 0%Z;
  cmp_total : forall a b, (0 < cmp a b)%Z -> (cmp b a <= 0)%Z;
  cmp_trans : forall a b c, (cmp a b <= 0)%Z -> (cmp b c <= 0)%Z -> (cmp a c <= 0)%Z;
}.

(* ===================================================================== *)
(** ** A concrete browser state for the examples *)
(* ===================================================================== *)

Module Demo.

(** Stand-in for the URI parser: the form test of an absolute URI, a scheme
    followed by a colon.  The [spec] is the text itself. *)
Definition schemeChar (c : N) : bool :=
  isAlpha c || isDigit c || bool_decide (c ∈ [43; 45; 46]).

Fixpoint schemeTail (s : jsstring) : bool :=
  match s with
  | [] => false
  | c :: s' => (c =? 58) || (schemeChar c && schemeTail s')
  end.

Definition absoluteURI (s : jsstring) : option nsIURI :=
  match s with
  | c :: s' => if isAlpha c && schemeTail s' then Some {| spec := s |} else None
  | [] => None
  end.

(** Stand-in for the collation of [localeCompare]: letters are compared
    without case first, and lower case comes before upper case on a tie. *)
Definition fold (c : N) : N := if (65 <=? c) && (c <=? 90) then c + 32 else c.
Definition caseRank (c : N) : N := if (65 <=? c) && (c <=? 90) then 1 else 0.

Definition collationKey (s : jsstring) : list N :=
  map (fun c => fold c + 1) s ++ 0 :: map caseRank s.

Fixpoint lex (a b : list N) : comparison :=
  match a, b with
  | [], [] => Eq
  | [], _ :: _ => Lt
  | _ :: _, [] => Gt
  | x :: a', y :: b' =>
      match x ?= y with
      | Eq => lex a' b'
      | c => c
      end
  end.

Definition collate (a b : jsstring) : Z :=
  match lex (collationKey a) (collationKey b) with
  | Lt => (-1)%Z
  | Eq => 0%Z
  | Gt => 1%Z
  end.

Fixpoint assoc {K V} `{EqDecision K} (d : V) (t : list (K * V)) (k : K) : V :=
  match t with
  | [] => d
  | (k', v) :: t' => if bool_decide (k = k') then v else assoc d t' k
  end.

Definition uX : jsstring := str "https://x.com/s?q=%s".
Definition uW : jsstring := str "https://w.org/?search=%s".
Definition uP : jsstring := str "https://p.net/find".
Definition uPlain : jsstring := str "https://plain.org/".
Definition uFolder : jsstring := str "https://folder.org/?q=%s".
Definition uNone : jsstring := str "https://nokeyword.org/".
Definition uErr : jsstring := str "https://err.org/".

Definition kX : KeywordRecord :=
  {| kr_keyword := str "x"; kr_url := uX; kr_postData := None |}.
Definition kW : KeywordRecord :=
  {| kr_keyword := str "w"; kr_url := uW; kr_postData := None |}.
Definition kP : KeywordRecord :=
  {| kr_keyword := str "p"; kr_url := uP; kr_postData := Some (str "q%3D%25s") |}.
Definition kPlain : KeywordRecord :=
  {| kr_keyword := str "plain"; kr_url := uPlain; kr_postData := None |}.
Definition kFolder : KeywordRecord :=
  {| kr_keyword := str "f"; kr_url := uFolder; kr_postData := None |}.

Definition uri_of (s : jsstring) : nsIURI := {| spec := s |}.

Definition png : faviconData :=
  {| mimeType := str "image/png"; data := [137; 80; 78; 71]; dataLen := 4 |}.
Definition no_octets : faviconData :=
  {| mimeType := []; data := []; dataLen := 0 |}.

Definition icon : jsstring := str "chrome://mozapps/skin/places/defaultFavicon.png".

Definition P : platform := {|
  getURIsForTag :=
    assoc []
      [ (str "search", map uri_of [uX; uW; uP; uPlain; uFolder]);
        (str "plain", map uri_of [uPlain]);
        (str "mixed", map uri_of [uX; uNone]);
        (str "nokeyword", map uri_of [uNone]);
        (str "flaky", map uri_of [uX; uErr]) ];
  keywords_fetch :=
    assoc (Return None)
      [ (uX, Return (Some kX)); (uW, Return (Some kW)); (uP, Return (Some kP));
        (uPlain, Return (Some kPlain)); (uFolder, Return (Some kFolder));
        (uNone, Return None); (uErr, Throw (PlacesError 1)) ];
  newURI := absoluteURI;
  getBookmarkIdsForURI := fun u =>
    assoc [] [ (uX, [5; 3]); (uW, [2; 7]); (uP, [9]); (uFolder, [4]) ] (spec u);
  getItemType :=
    assoc TYPE_BOOKMARK [ (2, TYPE_FOLDER); (4, TYPE_FOLDER) ];
  itemHasAnnotation := fun i => bool_decide (i = 9);
  getItemAnnotation := assoc [] [ (9, str "find on p.net") ];
  getItemTitle := assoc [] [ (5, str "B"); (3, str "old"); (7, str "a"); (9, str "C") ];
  promiseFaviconData :=
    assoc (Throw (PlacesError 2)) [ (uX, Return png); (uW, Return no_octets) ];
  defaultFavicon := icon;
  localeCompare := collate;
|}.

Definition bX : bookmark :=
  {| id := 5; description := []; title := str "B"; url := uX;
     keyword := str "x"; iconURL := []; postData := [] |}.
Definition bW : bookmark :=
  {| id := 7; description := []; title := str "a"; url := uW;
     keyword := str "w"; iconURL := []; postData := [] |}.
Definition bP : bookmark :=
  {| id := 9; description := str "find on p.net"; title := str "C"; url := uP;
     keyword := str "p"; iconURL := []; postData := str "q=%s" |}.

(** Three bookmark objects, and an array that holds them. *)
Definition store : heap :=
  {| objects := <[1%positive := bX]> (<[2%positive := bW]> (<[3%positive := bP]> ∅));
     arrays := <[1%positive := [VObj 1%positive; VObj 2%positive; VObj 3%positive]]> ∅ |}.

(** A template without a scheme. *)
Definition bRelative : bookmark :=
  {| id := 1; description := []; title := str "r"; url := str "x.com/s?q=%s";
     keyword := str "r"; iconURL := []; postData := [] |}.

End Demo.

(* ===================================================================== *)
(** ** Texts, seen from the server's side *)
(* ===================================================================== *)

(** No surrogate stands without its partner. *)
Fixpoint paired (s : jsstring) : bool :=
  match s with
  | [] => true
  | c :: rest =>
      if isLowSurrogate c then false
      else if isHighSurrogate c then
        match rest with
        | [] => false
        | k :: rest' => isLowSurrogate k && paired rest'
        end
      else paired rest
  end.

(** Every element is a UTF-16 code unit. *)
Definition code_units (s : jsstring) : Prop := Forall (fun c => c < 65536) s.

(** What a server does with a form-encoded value: [+] stands for a space,
    then the percent-escapes are decoded. *)
Definition formDecode (e : jsstring) : result jsstring :=
  decodeURIComponent (String_replace e plus pct20).

(* ===================================================================== *)
(** ** A second browser state for the examples *)
(* ===================================================================== *)

Module Demo2.

(** A keyword whose POST data is stored as the bare text [q=%s], and a
    keyword bookmark whose favicon has no octets. *)
Definition uRaw : jsstring := str "https://raw.org/find".
Definition kRaw : KeywordRecord :=
  {| kr_keyword := str "raw"; kr_url := uRaw; kr_postData := Some (str "q=%s") |}.

Definition P : platform := {|
  getURIsForTag :=
    Demo.assoc []
      [ (str "raw", map Demo.uri_of [Demo.uX; uRaw]);
        (str "lone", map Demo.uri_of [Demo.uW]);
        (str "good", map Demo.uri_of [Demo.uX; Demo.uP]) ];
  keywords_fetch :=
    Demo.assoc (Return None)
      [ (Demo.uX, Return (Some Demo.kX)); (Demo.uW, Return (Some Demo.kW));
        (Demo.uP, Return (Some Demo.kP)); (uRaw, Return (Some kRaw)) ];
  newURI := newURI Demo.P;
  getBookmarkIdsForURI := getBookmarkIdsForURI Demo.P;
  getItemType := getItemType Demo.P;
  itemHasAnnotation := itemHasAnnotation Demo.P;
  getItemAnnotation := getItemAnnotation Demo.P;
  getItemTitle := getItemTitle Demo.P;
  promiseFaviconData := promiseFaviconData Demo.P;
  defaultFavicon := defaultFavicon Demo.P;
  localeCompare := localeCompare Demo.P;
|}.

End Demo2.

(* ===================================================================== *)
(** ** Notions about the store *)
(* ===================================================================== *)



(** The bookmark object behind a value of the store. *)
Definition deref (h : heap) (v : value) : option bookmark :=
  match v with
  | VObj l => objects h !! l
  | VStr _ => None
  end.

(* ===================================================================== *)
(** ** Engines and menu items *)
(* ===================================================================== *)

(** An [nsISearchEngine] of the search service, known by its reference. *)
Definition engine_ref := N.

(** What [menuitem.engine] and [MCS.mruEngine] can hold: an engine of the
    search service, or the object that MCS.addKeywordBookmarkMenuitem builds
    around a bookmark, with the three properties it copies and the bookmark
    that its [getSubmission] closes over. *)
Inductive engine : Type :=
  | SearchEngine (e : engine_ref)
  | KeywordEngine (url postData description : option jsstring) (bookmark : value).

(** What [window.openLinkIn] is called with. *)
Record link : Type := {
  searchURI : jsstring;
  whereToOpen : jsstring;
  link_postData : option MIMEInputStream;
  inBackground : bool;
}.

(** The search service, one preference and [window.openLinkIn], as the two
    event handlers use them. *)
Record chrome : Type := {
  getVisibleEngines : option (list engine_ref);
  defaultEngine : option engine_ref;
  engine_name : engine_ref -> jsstring;
  engine_iconURI : engine_ref -> option jsstring;
  engine_description : engine_ref -> jsstring;
  engine_getSubmission : engine_ref -> jsstring -> option submission;
  loadInBackground : bool;
  openLinkIn_throws : link -> bool;
}.

Record menuitem : Type := {
  label : jsstring;
  class_ : jsstring;
  image : jsstring;
  searchtext : jsstring;
  tooltiptext : jsstring;
  item_engine : engine;
}.

Inductive menunode : Type :=
  | Menuseparator
  | Menuitem (m : menuitem).

(** A value given where a string is expected: [undefined] becomes the text
    "undefined". *)
Definition DOMString (o : option jsstring) : jsstring :=
  match o with Some s => s | None => str "undefined" end.

(** [x || ""] for a string or [undefined]. *)
Definition or_empty (o : option jsstring) : jsstring :=
  match o with Some s => if truthy s then s else [] | None => [] end.

(** MCS.addKeywordBookmarkMenuitem, on the children of the popup.  The
    element of the array may be a string, which has none of the properties
    read here. *)
Definition keyword_menuitem (h : heap) (searchText : jsstring) (bookmark : value)
    : menunode :=
  Menuitem
    {| label := DOMString (title <$> deref h bookmark);
       class_ := str "menuitem-iconic";
       image := DOMString (iconURL <$> deref h bookmark);
       searchtext := searchText;
       tooltiptext := or_empty (description <$> deref h bookmark);
       item_engine :=
         KeywordEngine (url <$> deref h bookmark) (postData <$> deref h bookmark)
           (description <$> deref h bookmark) bookmark |}.

Definition addKeywordBookmarkMenuitem (h : heap) (bookmark : value)
    (searchText : jsstring) (menupopup : list menunode) : list menunode :=
  menupopup ++ [keyword_menuitem h searchText bookmark].

(** MCS.addKeywordBookmarksMenuitems *)
Definition addKeywordBookmarksMenuitems (h : heap) (bookmarks : list value)
    (prependSeparator : bool) (searchText : jsstring) (menupopup : list menunode)
    : list menunode :=
  if (length bookmarks =? 0)%nat then menupopup
  else
    let menupopup :=
      if prependSeparator then menupopup ++ [Menuseparator] else menupopup in
    fold_left
      (fun popup bookmark => addKeywordBookmarkMenuitem h bookmark searchText popup)
      bookmarks menupopup.

(** The end of the chain in MCS.onPopupShown: when the chain resolves, its
    array goes to [addKeywordBookmarksMenuitems] with the popup as it is
    then; a rejection is logged and the popup stays as it is. *)
Definition keywordBookmarks_then (P : platform) (tag searchText : jsstring)
    (prependSeparator : bool) (h : heap) (menupopup : list menunode)
    : list menunode * heap :=
  match keywordBookmarks P tag h with
  | (Return a, h') =>
      (addKeywordBookmarksMenuitems h' (default [] (arrays h' !! a))
         prependSeparator searchText menupopup, h')
  | (Throw _, h') => (menupopup, h')
  end.

(** [engine.getSubmission(searchText, null, "contextmenu")]: the search
    service's own for its engines; for a keyword bookmark the closure, which
    reads the bookmark at the time of the call and finds no [url] to call
    [replace] on when the bookmark is a string. *)
Definition engine_submit (P : platform) (C : chrome) (h : heap) (e : engine)
    (searchText : jsstring) : result (option submission) :=
  match e with
  | SearchEngine r => Return (engine_getSubmission C r searchText)
  | KeywordEngine _ _ _ bookmark =>
      match deref h bookmark with
      | Some b => s <- getSubmission P b searchText ;; Return (Some s)
      | None => _ <- encodeText searchText ;; Throw TypeError
      end
  end.

(* ===================================================================== *)
(** ** MCS.onMenuClicked *)
(* ===================================================================== *)

(** nsIDOMWindowUtils mouse buttons. *)
Definition MOUSE_BUTTON_LEFT_BUTTON : N := 0.
Definition MOUSE_BUTTON_MIDDLE_BUTTON : N := 1.
Definition MOUSE_BUTTON_RIGHT_BUTTON : N := 2.

(** The click event: [view] tells whether the window has the context menu,
    [target_engine] is [event.target.engine] and [target_searchtext] the
    target's [searchtext] attribute. *)
Record click_event : Type := {
  button : N;
  shiftKey : bool;
  ctrlKey : bool;
  view : option bool;
  target_engine : option engine;
  target_searchtext : option jsstring;
}.

(** The first statement of MCS.onMenuClicked: where to open the link and
    whether in the background; nothing for a fourth button. *)
Definition whereToOpenLink (C : chrome) (event : click_event)
    : option (jsstring * bool) :=
  if button event =? MOUSE_BUTTON_MIDDLE_BUTTON then Some (str "tab", false)
  else if button event =? MOUSE_BUTTON_RIGHT_BUTTON then Some (str "current", false)
  else if button event =? MOUSE_BUTTON_LEFT_BUTTON then
    if shiftKey event then Some (str "window", false)
    else if ctrlKey event then Some (str "tab", false)
    else if loadInBackground C then Some (str "tabshifted", true)
    else Some (str "tab", false)
  else None.

(** How the handler ends when it does not throw: it returned before doing
    anything; or it hid the context menu, recorded the engine and called
    [openLinkIn], which returned or threw (the exception is logged). *)
Inductive clicked : Type :=
  | NothingDone
  | LinkOpened (l : link)
  | LinkFailed (l : link).

(** MCS.onMenuClicked: how it ends, and MCS.mruEngine afterwards. *)
Definition onMenuClicked (P : platform) (C : chrome) (h : heap)
    (event : click_event) (mruEngine : option engine)
    : result clicked * option engine :=
  match whereToOpenLink C event with
  | None => (Return NothingDone, mruEngine)
  | Some (whereToOpen, inBackground) =>
      match view event with
      | None => (Return NothingDone, mruEngine)
      | Some hasContextMenu =>
          if negb hasContextMenu then (Return NothingDone, mruEngine)
          else
            match (match target_engine event with
                   | Some e => Some e
                   | None => mruEngine
                   end) with
            | None => (Return NothingDone, mruEngine)
            | Some engine =>
                let searchText := or_empty (target_searchtext event) in
                if negb (truthy searchText) then (Return NothingDone, mruEngine)
                else
                  match engine_submit P C h engine searchText with
                  | Throw e => (Throw e, mruEngine)
                  | Return None => (Return NothingDone, mruEngine)
                  | Return (Some submission) =>
                      if negb (truthy (spec (uri submission)))
                      then (Return NothingDone, mruEngine)
                      else
                        let l := {| searchURI := spec (uri submission);
                                    whereToOpen := whereToOpen;
                                    link_postData := sub_postData submission;
                                    inBackground := inBackground |} in
                        (Return (if openLinkIn_throws C l
                                 then LinkFailed l else LinkOpened l),
                         Some engine)
                  end
            end
      end
  end.

(* ===================================================================== *)
(** ** MCS.onPopupShown *)
(* ===================================================================== *)

(** [window.gContextMenu], as far as it is read. *)
Record contextMenuInfo : Type := {
  isTextSelected : bool;
  isContentSelected : bool;
  textSelected : jsstring;
  ellipsis : option jsstring;
}.

(** The attributes that the handler sets on the menu. *)
Record menuAttributes : Type := {
  menu_hidden : option jsstring;
  menu_label : option jsstring;
  menu_image : option jsstring;
  menu_accesskey : option jsstring;
  menu_searchtext : option jsstring;
}.

(** The two strings read from the browser's bundle. *)
Record stringBundle : Type := {
  contextMenuSearch : jsstring -> jsstring -> jsstring;
  contextMenuSearch_accesskey : jsstring;
}.

(** The window of the event: each element is there or not; of
    [#context-searchselect] the [hidden] attribute, of the menu its
    attributes, of the popup its children.  [bundle_browser] is [None] when
    reading the label from the bundle throws. *)
Record browserWindow : Type := {
  gContextMenu : option contextMenuInfo;
  searchSelect : option (option jsstring);
  mcsMenu : option menuAttributes;
  mcsPopup : option (list menunode);
  bundle_browser : option stringBundle;
}.

Definition maxPreviewLength : nat := 15.

(** The ellipsis literal of the source: three code units. *)
Definition ellipsisLiteral : jsstring := [226; 8364; 166].

(** [gContextMenu.ellipsis || "..."] and the preview of the selected text. *)
Definition ellipsisOf (o : option jsstring) : jsstring :=
  match o with Some e => if truthy e then e else ellipsisLiteral | None => ellipsisLiteral end.

Definition previewText (searchText : jsstring) (ellipsis : option jsstring) : jsstring :=
  if (maxPreviewLength <? length searchText)%nat
  then take maxPreviewLength searchText ++ ellipsisOf ellipsis
  else searchText.

(** The menu item of an engine of the search service. *)
Definition engine_menuitem (C : chrome) (searchText : jsstring) (e : engine_ref)
    : menunode :=
  Menuitem {| label := engine_name C e;
              class_ := str "menuitem-iconic";
              image := match engine_iconURI C e with Some s => s | None => [] end;
              searchtext := searchText;
              tooltiptext := or_empty (Some (engine_description C e));
              item_engine := SearchEngine e |}.

(** [engines.indexOf(MCS.mruEngine) === -1]: engines are compared by
    reference, and the object built for a keyword bookmark is none of them. *)
Definition not_visible (engines : list engine_ref) (mru : option engine) : bool :=
  match mru with
  | Some (SearchEngine e) => negb (bool_decide (e ∈ engines))
  | _ => true
  end.

(** [engine.name], undefined for the object of a keyword bookmark. *)
Definition name_of (C : chrome) (e : engine) : option jsstring :=
  match e with
  | SearchEngine r => Some (engine_name C r)
  | KeywordEngine _ _ _ _ => None
  end.

Definition iconURI_of (C : chrome) (e : engine) : option jsstring :=
  match e with
  | SearchEngine r => engine_iconURI C r
  | KeywordEngine _ _ _ _ => None
  end.

(** How the synchronous part of the handler ends when it does not throw: it
    returned, or it started the chain for a tag, with the text and the flag
    that [addKeywordBookmarksMenuitems] will get. *)
Inductive shown : Type :=
  | Returned
  | ChainStarted (searchBookmarkTag searchText : jsstring) (prependSeparator : bool).

(** MCS.onPopupShown up to the start of the chain: how it ends, the window
    and MCS.mruEngine afterwards.  [searchBookmarksTag] is the value of the
    preference. *)
Definition onPopupShown (C : chrome) (searchBookmarksTag : jsstring)
    (view : option browserWindow) (mruEngine : option engine)
    : result shown * (option browserWindow * option engine) :=
  match view with
  | None => (Return Returned, (view, mruEngine))
  | Some window =>
      match gContextMenu window, searchSelect window, mcsMenu window, mcsPopup window with
      | Some cm, Some hidden, Some menu, Some _ =>
          let isSomethingSelected :=
            isTextSelected cm || isContentSelected cm
            || (0 <? length (textSelected cm))%nat in
          let hidden' := if truthy (or_empty hidden) then or_empty hidden else str "true" in
          let menu1 :=
            {| menu_hidden := Some (if isSomethingSelected then str "false" else str "true");
               menu_label := menu_label menu;
               menu_image := menu_image menu;
               menu_accesskey := menu_accesskey menu;
               menu_searchtext := menu_searchtext menu |} in
          let window1 :=
            {| gContextMenu := gContextMenu window;
               searchSelect := Some (Some hidden');
               mcsMenu := Some menu1;
               mcsPopup := Some [];
               bundle_browser := bundle_browser window |} in
          let mru1 :=
            match mruEngine with
            | Some e => Some e
            | None => SearchEngine <$> defaultEngine C
            end in
          match getVisibleEngines C with
          | None => (Throw TypeError, (Some window1, mru1))
          | Some engines =>
              let mru2 :=
                if not_visible engines mru1
                then SearchEngine <$> defaultEngine C else mru1 in
              match mru2 with
              | None => (Return Returned, (Some window1, mru2))
              | Some mru =>
                  if negb (truthy (or_empty (name_of C mru)))
                  then (Return Returned, (Some window1, mru2))
                  else if negb isSomethingSelected
                  then (Return Returned, (Some window1, mru2))
                  else
                    let searchText := textSelected cm in
                    if negb (truthy searchText)
                    then (Return Returned, (Some window1, mru2))
                    else
                      let previewText := previewText searchText (ellipsis cm) in
                      let name := or_empty (name_of C mru) in
                      let '(menulabel, accesskey) :=
                        match bundle_browser window with
                        | Some b =>
                            (contextMenuSearch b name previewText,
                             contextMenuSearch_accesskey b)
                        | None =>
                            (str "Search " ++ name ++ str " for " ++ [34]
                               ++ previewText ++ [34],
                             str "S")
                        end in
                      let menu2 :=
                        {| menu_hidden := menu_hidden menu1;
                           menu_label := Some menulabel;
                           menu_image := Some (or_empty (iconURI_of C mru));
                           menu_accesskey := Some accesskey;
                           menu_searchtext := Some searchText |} in
                      let window2 :=
                        {| gContextMenu := gContextMenu window;
                           searchSelect := Some (Some hidden');
                           mcsMenu := Some menu2;
                           mcsPopup := Some (map (engine_menuitem C searchText) engines);
                           bundle_browser := bundle_browser window |} in
                      if negb (truthy searchBookmarksTag)
                      then (Return Returned, (Some window2, mru2))
                      else
                        (Return (ChainStarted searchBookmarksTag searchText
                                   (0 <? length engines)%nat),
                         (Some window2, mru2))
              end
          end
      | _, _, _, _ => (Return Returned, (view, mruEngine))
      end
  end.

(* ===================================================================== *)
(** ** A window and a click for the examples *)
(* ===================================================================== *)

Module DemoUI.

(** Two visible engines, the first of which is the default. *)
Definition C : chrome := {|
  getVisibleEngines := Some [1; 2];
  defaultEngine := Some 1;
  engine_name := Demo.assoc [] [ (1, str "Alpha"); (2, str "Beta") ];
  engine_iconURI := fun _ => None;
  engine_description := fun _ => [];
  engine_getSubmission := fun _ _ => None;
  loadInBackground := true;
  openLinkIn_throws := fun _ => false;
|}.

(** The same without a list of engines. *)
Definition C_null : chrome := {|
  getVisibleEngines := None;
  defaultEngine := defaultEngine C;
  engine_name := engine_name C;
  engine_iconURI := engine_iconURI C;
  engine_description := engine_description C;
  engine_getSubmission := engine_getSubmission C;
  loadInBackground := loadInBackground C;
  openLinkIn_throws := openLinkIn_throws C;
|}.

(** The engine object of the first bookmark of [Demo.store]. *)
Definition kX : engine :=
  KeywordEngine (Some Demo.uX) (Some []) (Some []) (VObj 1%positive).

Definition stale : menunode :=
  Menuitem {| label := str "old"; class_ := []; image := []; searchtext := [];
              tooltiptext := []; item_engine := kX |}.

(** A window in which "hello" is selected and the popup has an item left
    from before. *)
Definition window : browserWindow := {|
  gContextMenu :=
    Some {| isTextSelected := true; isContentSelected := false;
            textSelected := str "hello"; ellipsis := None |};
  searchSelect := Some None;
  mcsMenu :=
    Some {| menu_hidden := None; menu_label := None; menu_image := None;
            menu_accesskey := None; menu_searchtext := None |};
  mcsPopup := Some [stale];
  bundle_browser := None;
|}.

(** A left click, without modifier, on the item of the first bookmark. *)
Definition click : click_event := {|
  button := MOUSE_BUTTON_LEFT_BUTTON;
  shiftKey := false;
  ctrlKey := false;
  view := Some true;
  target_engine := Some kX;
  target_searchtext := Some (str "hello");
|}.

End DemoUI.

(* ===================================================================== *)
(** * Properties *)
(* ===================================================================== *)

(** ** Results *)

Lemma bind_Return {A B} (r : result A) (k : A -> result B) (b : B) :
  bind r k = Return b -> exists a, r = Return a /\ k a = Return b.
Proof. destruct r as [a|e]; simpl; [eauto | discriminate]. Qed.

Lemma mapM_Return {A B} (f : A -> result B) (l : list A) (bs : list B) :
  mapM f l = Return bs -> Forall2 (fun a b => f a = Return b) l bs.
Proof.
  revert bs. induction l as [|a l IH]; simpl; intros bs H.
  - injection H as <-. constructor.
  - apply bind_Return in H as (b & Hb & H).
    apply bind_Return in H as (bs' & Hbs & H).
    injection H as <-. constructor; auto.
Qed.

Lemma Promise_all_Return {A} (ps : list (result A)) (l : list A) :
  Promise_all ps = Return l <-> ps = map Return l.
Proof.
  revert l. induction ps as [|p ps IH]; simpl; intros l.
  - split; intros H.
    + injection H as <-. reflexivity.
    + destruct l; [reflexivity | discriminate].
  - split; intros H.
    + apply bind_Return in H as (a & -> & H).
      apply bind_Return in H as (rest & Hrest & H).
      injection H as <-. simpl. f_equal. by apply IH.
    + destruct l as [|a l]; [discriminate|]. simpl in H.
      injection H as -> ->. simpl.
      assert (Promise_all (map Return l) = Return l) as -> by by apply IH.
      reflexivity.
Qed.

Lemma Promise_all_Throw {A} (ps : list (result A)) (e : error) :
  Throw e ∈ ps -> exists e', Promise_all ps = Throw e'.
Proof.
  induction ps as [|p ps IH]; intros H.
  - by apply not_elem_of_nil in H.
  - apply elem_of_cons in H as [<-|H]; simpl; [eauto|].
    destruct p as [a|e0]; simpl; [|eauto].
    destruct (IH H) as [e' ->]. simpl. eauto.
Qed.

(** ** Literal patterns *)

Lemma marker_eq : marker = [37; 115].
Proof. reflexivity. Qed.

Lemma pct20_eq : pct20 = [37; 50; 48].
Proof. reflexivity. Qed.

Lemma plus_eq : plus = [43].
Proof. reflexivity. Qed.

Lemma starts_with_spec (pat s : jsstring) :
  starts_with pat s = true <-> exists post, s = pat ++ post.
Proof.
  revert s. induction pat as [|p pat IH]; intros s; simpl.
  - split; eauto.
  - destruct s as [|c s].
    + split; [discriminate | intros [post H]; discriminate].
    + rewrite andb_true_iff, N.eqb_eq, IH. split.
      * intros [-> [post ->]]. eauto.
      * intros [post H]. injection H as -> ->. eauto.
Qed.

Lemma regex_test_occurs (pat s : jsstring) :
  regex_test pat s = true <-> occurs pat s.
Proof.
  unfold occurs. induction s as [|c s IH].
  - simpl. rewrite orb_false_r, starts_with_spec. split.
    + intros [post H]. exists [], post. exact H.
    + intros (pre & post & H). symmetry in H.
      apply app_eq_nil in H as [-> H]. exists post. by rewrite H.
  - cbn [regex_test]. rewrite orb_true_iff, starts_with_spec, IH. split.
    + intros [[post H] | (pre & post & H)].
      * exists [], post. exact H.
      * exists (c :: pre), post. by rewrite H.
    + intros (pre & post & H). destruct pre as [|c' pre].
      * left. exists post. exact H.
      * right. injection H as -> ->. eauto.
Qed.

Lemma regex_test_free (pat s : jsstring) :
  regex_test pat s = false <-> ~ occurs pat s.
Proof.
  rewrite <- regex_test_occurs. destruct (regex_test pat s); split; intros H;
    congruence.
Qed.

(** ** Replacement texts without a dollar sign are copied as they are *)

Lemma GetSubstitution_plain (matched before after replacement : jsstring) :
  36 ∉ replacement ->
  GetSubstitution matched before after replacement = replacement.
Proof.
  induction replacement as [|c rest IH]; intros H; [reflexivity|].
  apply not_elem_of_cons in H as [Hc Hrest]. simpl.
  destruct (N.eqb_spec c 36) as [->|_]; [done|].
  by rewrite IH.
Qed.

Lemma replace_from_plain (pat replacement before : jsstring) (skip : nat)
    (s : jsstring) :
  36 ∉ replacement ->
  replace_from pat replacement before skip s = replace_plain pat replacement skip s.
Proof.
  intros H. revert before skip.
  induction s as [|c rest IH]; intros before skip; [reflexivity|].
  cbn [replace_from replace_plain]. destruct skip as [|k]; [|apply IH].
  destruct (starts_with pat (c :: rest)).
  - by rewrite GetSubstitution_plain, IH.
  - by rewrite IH.
Qed.

Lemma String_replace_plain (s pat replacement : jsstring) :
  36 ∉ replacement ->
  String_replace s pat replacement = replace_plain pat replacement 0 s.
Proof. apply replace_from_plain. Qed.

(** ** Substitution at the marker *)

Lemma replace_marker_free (e s : jsstring) :
  regex_test marker s = false -> replace_plain marker e 0 s = s.
Proof.
  induction s as [|c s IH]; [reflexivity|].
  cbn [regex_test]. intros H. apply orb_false_iff in H as [H1 H2].
  cbn [replace_plain]. rewrite H1. by rewrite IH.
Qed.

Lemma replace_marker_segment (e s r : jsstring) :
  regex_test marker s = false ->
  replace_plain marker e 0 (s ++ marker ++ r) = s ++ e ++ replace_plain marker e 0 r.
Proof.
  induction s as [|c s IH]; intros H.
  - rewrite marker_eq. reflexivity.
  - cbn [regex_test] in H. apply orb_false_iff in H as [H1 H2].
    change ((c :: s) ++ marker ++ r) with (c :: (s ++ marker ++ r)).
    cbn [replace_plain].
    assert (starts_with marker (c :: s ++ marker ++ r) = false) as ->.
    { rewrite marker_eq in *. cbn [starts_with app] in *.
      destruct (N.eqb_spec 37 c) as [<-|]; [|reflexivity].
      destruct s as [|d s]; cbn [starts_with app andb] in *; [reflexivity|].
      exact H1. }
    by rewrite IH.
Qed.

Lemma replace_marker_join (e : jsstring) (segs : list jsstring) :
  Forall (fun s => ~ occurs marker s) segs ->
  replace_plain marker e 0 (join marker segs) = join e segs.
Proof.
  induction 1 as [|s segs Hs Hsegs IH]; [reflexivity|].
  apply regex_test_free in Hs.
  destruct segs as [|s2 segs].
  - simpl. by apply replace_marker_free.
  - change (join marker (s :: s2 :: segs))
      with (s ++ marker ++ join marker (s2 :: segs)).
    change (join e (s :: s2 :: segs)) with (s ++ e ++ join e (s2 :: segs)).
    by rewrite replace_marker_segment, IH.
Qed.

(** ** The encoded text *)

(** Quotients and remainders taken as unknown naturals. *)
Ltac hide_div :=
  repeat match goal with
         | |- context [?a / ?b] => generalize (a / b); intro
         | |- context [?a mod ?b] => generalize (a mod b); intro
         end.

Lemma hexDigit_ge (n : N) : 48 <= hexDigit n.
Proof. unfold hexDigit. destruct (N.ltb_spec n 10); lia. Qed.

Lemma hexDigit_50 (n : N) : hexDigit n = 50 -> n = 2.
Proof. unfold hexDigit. destruct (N.ltb_spec n 10); lia. Qed.

Lemma hexDigit_48 (n : N) : hexDigit n = 48 -> n = 0.
Proof. unfold hexDigit. destruct (N.ltb_spec n 10); lia. Qed.

Lemma starts_pct20 (h1 h2 : N) (r : jsstring) :
  starts_with pct20 (37 :: h1 :: h2 :: r) = (50 =? h1) && (48 =? h2).
Proof.
  rewrite pct20_eq. cbn [starts_with]. rewrite andb_true_r.
  change (37 =? 37) with true. reflexivity.
Qed.

Lemma starts_pct20_ne (c : N) (r : jsstring) :
  c <> 37 -> starts_with pct20 (c :: r) = false.
Proof.
  intros H. rewrite pct20_eq. cbn [starts_with].
  destruct (N.eqb_spec 37 c); [congruence | reflexivity].
Qed.

Lemma replace_pct20_pct (b : N) (r : jsstring) :
  replace_plain pct20 plus 0 (pct b ++ r)
  = (if b =? 32 then plus else pct b) ++ replace_plain pct20 plus 0 r.
Proof.
  unfold pct. cbn [app replace_plain]. rewrite starts_pct20.
  pose proof (hexDigit_ge (b / 16)) as G1.
  pose proof (hexDigit_ge (b mod 16)) as G2.
  destruct (N.eqb_spec 50 (hexDigit (b / 16))) as [E1|E1];
    [destruct (N.eqb_spec 48 (hexDigit (b mod 16))) as [E2|E2]|]; cbn [andb].
  - symmetry in E1, E2. apply hexDigit_50 in E1. apply hexDigit_48 in E2.
    assert (b = 32) as ->.
    { pose proof (N.div_mod b 16). lia. }
    reflexivity.
  - destruct (N.eqb_spec b 32) as [->|_]; [exfalso; by apply E2|].
    cbn [app]. f_equal. cbn [replace_plain].
    rewrite starts_pct20_ne by lia. f_equal. cbn [replace_plain].
    rewrite starts_pct20_ne by lia. reflexivity.
  - destruct (N.eqb_spec b 32) as [->|_]; [exfalso; by apply E1|].
    cbn [app]. f_equal. cbn [replace_plain].
    rewrite starts_pct20_ne by lia. f_equal. cbn [replace_plain].
    rewrite starts_pct20_ne by lia. reflexivity.
Qed.

Lemma replace_pct20_octets (os : list N) (r : jsstring) :
  Forall (fun b => b <> 32) os ->
  replace_plain pct20 plus 0 (concat (map pct os) ++ r)
  = concat (map pct os) ++ replace_plain pct20 plus 0 r.
Proof.
  induction 1 as [|b os Hb Hos IH]; [reflexivity|].
  cbn [map concat]. rewrite <- !app_assoc, replace_pct20_pct, IH.
  destruct (N.eqb_spec b 32); [congruence | reflexivity].
Qed.

Lemma utf8_high (v : N) : 128 <= v -> Forall (fun b => b <> 32) (utf8 v).
Proof.
  intros H. unfold utf8.
  destruct (N.ltb_spec v 128); [lia|].
  destruct (N.ltb_spec v 2048); [|destruct (N.ltb_spec v 65536)];
    repeat (apply Forall_cons_2; [cbv beta; hide_div; lia|]); apply Forall_nil_2.
Qed.

Lemma replace_pct20_encode (v : N) (r : jsstring) :
  replace_plain pct20 plus 0 (pctEncode v ++ r)
  = formUnit v ++ replace_plain pct20 plus 0 r.
Proof.
  unfold formUnit. destruct (N.ltb_spec v 128) as [Hv|Hv].
  - unfold pctEncode, utf8. destruct (N.ltb_spec v 128); [|lia].
    cbn [map concat]. rewrite app_nil_r. apply replace_pct20_pct.
  - destruct (N.eqb_spec v 32); [lia|].
    apply replace_pct20_octets, utf8_high, Hv.
Qed.

Lemma unreserved_not_percent (c : N) : uriUnreserved c = true -> c <> 37.
Proof. intros H ->. discriminate H. Qed.

Lemma unreserved_not_dollar (c : N) : uriUnreserved c = true -> c <> 36.
Proof. intros H ->. discriminate H. Qed.

Lemma plus_no_dollar : 36 ∉ plus.
Proof. rewrite plus_eq. intros H. apply list_elem_of_singleton in H. discriminate. Qed.

Lemma encodeText_formEncode (s : jsstring) : encodeText s = formEncode s.
Proof.
  unfold encodeText.
  assert (forall n s, (length s <= n)%nat ->
            (e <- encodeURIComponent s ;; Return (String_replace e pct20 plus))
            = formEncode s) as H; [|by apply (H (length s))].
  clear s. induction n as [|n IH]; intros [|c rest] Hlen; cbn [length] in Hlen;
    try lia; try reflexivity.
  cbn [encodeURIComponent formEncode].
  destruct (uriUnreserved c) eqn:Hu.
  - rewrite <- (IH rest) by lia.
    destruct (encodeURIComponent rest) as [a|]; cbn [bind]; [|reflexivity].
    f_equal. rewrite !String_replace_plain by apply plus_no_dollar.
    cbn [replace_plain].
    by rewrite starts_pct20_ne by by apply unreserved_not_percent.
  - destruct (isLowSurrogate c); [reflexivity|].
    destruct (isHighSurrogate c).
    + destruct rest as [|k rest']; [reflexivity|].
      destruct (isLowSurrogate k); [|reflexivity].
      cbn [length] in Hlen. rewrite <- (IH rest') by lia.
      destruct (encodeURIComponent rest') as [a|]; cbn [bind]; [|reflexivity].
      f_equal. rewrite !String_replace_plain by apply plus_no_dollar.
      rewrite replace_pct20_encode. unfold formUnit.
      destruct (N.eqb_spec ((c - 55296) * 1024 + (k - 56320) + 65536) 32);
        [lia | reflexivity].
    + rewrite <- (IH rest) by lia.
      destruct (encodeURIComponent rest) as [a|]; cbn [bind]; [|reflexivity].
      f_equal. rewrite !String_replace_plain by apply plus_no_dollar.
      apply replace_pct20_encode.
Qed.

Lemma pct_no_dollar (b : N) : 36 ∉ pct b.
Proof.
  unfold pct. pose proof (hexDigit_ge (b / 16)). pose proof (hexDigit_ge (b mod 16)).
  rewrite !not_elem_of_cons. repeat split; try lia. apply not_elem_of_nil.
Qed.

Lemma pctEncode_no_dollar (v : N) : 36 ∉ pctEncode v.
Proof.
  unfold pctEncode. induction (utf8 v) as [|b os IH]; cbn [map concat].
  - apply not_elem_of_nil.
  - rewrite not_elem_of_app. split; [apply pct_no_dollar | exact IH].
Qed.

Lemma formUnit_no_dollar (v : N) : 36 ∉ formUnit v.
Proof.
  unfold formUnit. destruct (v =? 32); [apply plus_no_dollar | apply pctEncode_no_dollar].
Qed.

Lemma formEncode_no_dollar (s e : jsstring) : formEncode s = Return e -> 36 ∉ e.
Proof.
  assert (forall n s e, (length s <= n)%nat -> formEncode s = Return e -> 36 ∉ e) as H;
    [|by apply (H (length s))].
  clear s e. induction n as [|n IH]; intros [|c rest] e Hlen; cbn [length] in Hlen;
    try lia; cbn [formEncode]; intros H;
    try (injection H as <-; apply not_elem_of_nil).
  destruct (uriUnreserved c) eqn:Hu.
  - apply bind_Return in H as (r & Hr & H). injection H as <-.
    apply not_elem_of_cons. split.
    + intros E. by apply (unreserved_not_dollar c).
    + apply (IH rest); [lia | exact Hr].
  - destruct (isLowSurrogate c); [discriminate|].
    destruct (isHighSurrogate c).
    + destruct rest as [|k rest']; [discriminate|].
      destruct (isLowSurrogate k); [|discriminate].
      apply bind_Return in H as (r & Hr & H). injection H as <-.
      cbn [length] in Hlen. rewrite not_elem_of_app. split.
      * apply pctEncode_no_dollar.
      * apply (IH rest'); [lia | exact Hr].
    + apply bind_Return in H as (r & Hr & H). injection H as <-.
      rewrite not_elem_of_app. split.
      * apply formUnit_no_dollar.
      * apply (IH rest); [lia | exact Hr].
Qed.

Lemma encodeText_no_dollar (text e : jsstring) : encodeText text = Return e -> 36 ∉ e.
Proof. rewrite encodeText_formEncode. apply formEncode_no_dollar. Qed.

(** C7. For every text, [encodeURIComponent(text).replace(/%20/g, "+")] is
    the percent-encoding of the text by the rules of a URI component in which
    every space is written [+] instead of [%20] (and it throws URIError
    exactly when that encoding does, on an unpaired surrogate); a space gives
    "+", "a b" gives "a+b" and "a&b" gives "a%26b". *)
Theorem encode_form_encoding :
  (forall text, encodeText text = formEncode text)
  /\ encodeText (str " ") = Return (str "+")
  /\ encodeText (str "a b") = Return (str "a+b")
  /\ encodeText (str "a&b") = Return (str "a%26b").
Proof.
  split; [apply encodeText_formEncode|].
  repeat split; vm_compute; reflexivity.
Qed.

(** ** Templates *)

Lemma join_cons_head (sep : jsstring) (c : N) (s : jsstring) (rest : list jsstring) :
  join sep ((c :: s) :: rest) = c :: join sep (s :: rest).
Proof. destruct rest; reflexivity. Qed.

Lemma template_segments (template : jsstring) : exists segs, segmented template segs.
Proof.
  unfold segmented. induction template as [|c tpl (segs & Hj & Hf)].
  - exists []. split; [reflexivity | constructor].
  - assert (exists s0 rest, tpl = join marker (s0 :: rest)
              /\ Forall (fun s => ~ occurs marker s) (s0 :: rest))
      as (s0 & rest & -> & Hf').
    { destruct segs as [|s0 rest].
      - exists [], []. split; [exact Hj|]. repeat constructor.
        apply regex_test_free. reflexivity.
      - eauto. }
    clear segs Hj Hf. apply Forall_cons in Hf' as [Hs0 Hrest].
    apply regex_test_free in Hs0.
    destruct (starts_with marker (c :: s0)) eqn:Hst.
    + rewrite marker_eq in Hst. cbn [starts_with] in Hst.
      destruct s0 as [|d s0']; [by rewrite andb_false_r in Hst|].
      apply andb_true_iff in Hst as [Hc Hd].
      apply N.eqb_eq in Hc as <-. rewrite andb_true_r in Hd.
      apply N.eqb_eq in Hd as <-.
      exists ([] :: s0' :: rest). split.
      * rewrite join_cons_head. reflexivity.
      * cbn [regex_test] in Hs0. apply orb_false_iff in Hs0 as [_ Hs0].
        repeat apply Forall_cons_2; try exact Hrest.
        -- apply regex_test_free. reflexivity.
        -- by apply regex_test_free.
    + exists ((c :: s0) :: rest). split.
      * by rewrite join_cons_head.
      * apply Forall_cons_2; [|exact Hrest].
        apply regex_test_free. cbn [regex_test]. by rewrite Hst, Hs0.
Qed.

Lemma substitute_segments (text e template : jsstring) (segs : list jsstring) :
  encodeText text = Return e ->
  segmented template segs ->
  String_replace template marker e = join e segs.
Proof.
  intros He [-> Hf].
  rewrite String_replace_plain by (by apply (encodeText_no_dollar text)).
  by apply replace_marker_join.
Qed.

(** C8. For every template and every escaped text, the substitution puts
    the escaped text in the place of every occurrence of [%s] and copies
    everything else: a template cut at its markers comes out as the same
    segments with the escaped text between them, separately for the URL and
    for the POST body of [getSubmission]; every template can be cut this
    way; and the bookmark with URL https://x.com/s?q=%s and the text
    "hello world" give the URI https://x.com/s?q=hello+world. *)
Theorem substitute_every_marker (P : platform) (b : bookmark)
    (text e : jsstring) (usegs psegs : list jsstring) :
  encodeText text = Return e ->
  segmented (url b) usegs ->
  segmented (postData b) psegs ->
  String_replace (url b) marker e = join e usegs
  /\ String_replace (postData b) marker e = join e psegs
  /\ getSubmission P b text =
       match newURI P (join e usegs) with
       | None => Throw NS_ERROR_MALFORMED_URI
       | Some u =>
           Return {| uri := u;
                     sub_postData :=
                       if truthy (postData b) then
                         Some {| headers := [formContentType];
                                 addContentLength := true;
                                 stream_data := join e psegs |}
                       else None |}
       end
  /\ (forall template, exists segs, segmented template segs)
  /\ submission_spec (getSubmission Demo.P Demo.bX (str "hello world"))
     = Return (str "https://x.com/s?q=hello+world").
Proof.
  intros He Hu Hp.
  pose proof (substitute_segments _ _ _ _ He Hu) as Eu.
  pose proof (substitute_segments _ _ _ _ He Hp) as Ep.
  split; [exact Eu|]. split; [exact Ep|]. split; [|split].
  - unfold getSubmission. rewrite He. cbn [bind]. rewrite Eu, Ep. reflexivity.
  - apply template_segments.
  - vm_compute. reflexivity.
Qed.

Lemma substitute_every_marker_witness :
  encodeText (str "a&b c") = Return (str "a%26b+c")
  /\ segmented (url Demo.bP) [Demo.uP]
  /\ segmented (postData Demo.bP) [str "q="; []]
  /\ String_replace (postData Demo.bP) marker (str "a%26b+c") = str "q=a%26b+c".
Proof.
  assert (encodeText (str "a&b c") = Return (str "a%26b+c")) as He
    by (vm_compute; reflexivity).
  assert (segmented (url Demo.bP) [Demo.uP]) as Hu.
  { split; [reflexivity|]. repeat apply Forall_cons_2; try apply Forall_nil_2;
      apply regex_test_free; vm_compute; reflexivity. }
  assert (segmented (postData Demo.bP) [str "q="; []]) as Hp.
  { split; [reflexivity|]. repeat apply Forall_cons_2; try apply Forall_nil_2;
      apply regex_test_free; vm_compute; reflexivity. }
  split; [exact He|]. split; [exact Hu|]. split; [exact Hp|].
  apply (substitute_every_marker Demo.P Demo.bP _ _ _ _ He Hu Hp).
Defined.

(** ** A malformed URI *)

(** C4, as amended.  If the text obtained from the URL template does not
    parse as an absolute URI, [getSubmission] throws the parser's
    NS_ERROR_MALFORMED_URI to its immediate caller and returns no value; the
    caller, MCS.onMenuClicked, does not catch it. *)
Theorem getSubmission_malformed_throws (P : platform) (b : bookmark)
    (text e : jsstring) :
  encodeText text = Return e ->
  newURI P (String_replace (url b) marker e) = None ->
  getSubmission P b text = Throw NS_ERROR_MALFORMED_URI
  /\ onMenuClicked_submission P b text = Throw NS_ERROR_MALFORMED_URI.
Proof.
  intros He Hn. unfold onMenuClicked_submission, getSubmission.
  rewrite He. cbn [bind]. rewrite Hn. cbn [bind]. split; reflexivity.
Qed.

Lemma getSubmission_malformed_throws_witness :
  encodeText (str "a") = Return (str "a")
  /\ newURI Demo.P (String_replace (url Demo.bRelative) marker (str "a")) = None
  /\ getSubmission Demo.P Demo.bRelative (str "a") = Throw NS_ERROR_MALFORMED_URI.
Proof.
  assert (encodeText (str "a") = Return (str "a")) as He by (vm_compute; reflexivity).
  assert (newURI Demo.P (String_replace (url Demo.bRelative) marker (str "a")) = None)
    as Hn by (vm_compute; reflexivity).
  split; [exact He|]. split; [exact Hn|].
  apply (getSubmission_malformed_throws Demo.P Demo.bRelative _ _ He Hn).
Defined.

(** C4 as it was stated fails: for the template x.com/s?q=%s and the text
    "a" the substituted text x.com/s?q=a has no scheme, and [getSubmission]
    returns no value at all. *)
Lemma getSubmission_returns_no_failure_value :
  encodeText (str "a") = Return (str "a")
  /\ newURI Demo.P (String_replace (url Demo.bRelative) marker (str "a")) = None
  /\ ~ (exists v, getSubmission Demo.P Demo.bRelative (str "a") = Return v).
Proof.
  split; [vm_compute; reflexivity|]. split; [vm_compute; reflexivity|].
  intros [v H]. vm_compute in H. discriminate H.
Qed.

(** ** From keyword records to bookmarks *)

Lemma filter_Boolean_elem {A} (l : list (option A)) (a : A) :
  a ∈ filter_Boolean l <-> Some a ∈ l.
Proof.
  induction l as [|[x|] l IH]; cbn [filter_Boolean].
  - split; intros H; by apply not_elem_of_nil in H.
  - rewrite !elem_of_cons, IH. split; intros [H|H]; auto.
    + left. by rewrite H.
    + left. by injection H.
  - rewrite elem_of_cons, IH. split; [auto|]. intros [H|H]; [discriminate | done].
Qed.

Lemma find_head_filter (f : N -> N) (k : N) (l : list N) :
  find (fun i => f i =? k) l = head (filter (fun i => f i = k) l).
Proof.
  induction l as [|i l IH]; [reflexivity|]. cbn [find].
  rewrite filter_cons. destruct (N.eqb_spec (f i) k) as [E|E].
  - by rewrite decide_True.
  - by rewrite decide_False.
Qed.

(** What a record must satisfy for [keywordResultToBookmark] to build an
    object from it, and what the object holds. *)
Lemma keywordResultToBookmark_Some (P : platform) (keywordResult : option KeywordRecord)
    (b : bookmark) :
  keywordResultToBookmark P keywordResult = Return (Some b) ->
  exists kr u,
    keywordResult = Some kr
    /\ decodedPostData kr = Return (postData b)
    /\ url b = kr_url kr /\ keyword b = kr_keyword kr
    /\ regex_test marker (url b) || regex_test marker (postData b) = true
    /\ newURI P (kr_url kr) = Some u
    /\ head (filter (fun i => getItemType P i = TYPE_BOOKMARK)
               (getBookmarkIdsForURI P u)) = Some (id b)
    /\ id b <> 0
    /\ title b = getItemTitle P (id b)
    /\ iconURL b = [].
Proof.
  unfold keywordResultToBookmark. destruct keywordResult as [kr|]; [|discriminate].
  intros H. apply bind_Return in H as (pd & Hpd & H).
  destruct (regex_test marker (kr_url kr) || regex_test marker pd) eqn:Hm;
    cbn [negb] in H; [|discriminate].
  destruct (newURI P (kr_url kr)) as [u|] eqn:Hu; [|discriminate].
  assert ((if (0 <? length (getBookmarkIdsForURI P u))%nat
           then find (fun id => getItemType P id =? TYPE_BOOKMARK)
                  (getBookmarkIdsForURI P u)
           else None)
          = head (filter (fun i => getItemType P i = TYPE_BOOKMARK)
                    (getBookmarkIdsForURI P u))) as E.
  { rewrite <- find_head_filter.
    destruct (getBookmarkIdsForURI P u); reflexivity. }
  rewrite E in H. clear E.
  destruct (head _) as [i|] eqn:Hh; [|discriminate].
  destruct (N.eqb_spec i 0) as [->|Hi]; [discriminate|].
  injection H as <-. cbn. exists kr, u. repeat split; auto.
Qed.

Lemma keywordResultToBookmark_no_marker (P : platform) (kr : KeywordRecord)
    (pd : jsstring) :
  decodedPostData kr = Return pd ->
  ~ occurs marker (kr_url kr) -> ~ occurs marker pd ->
  keywordResultToBookmark P (Some kr) = Return None.
Proof.
  intros Hpd Hu Hp. unfold keywordResultToBookmark. rewrite Hpd. cbn [bind].
  apply regex_test_free in Hu, Hp. by rewrite Hu, Hp.
Qed.

Lemma keywordResultsToBookmarks_elem (P : platform)
    (keywordResults : list (option KeywordRecord)) (bookmarks : list bookmark)
    (b : bookmark) :
  keywordResultsToBookmarks P keywordResults = Return bookmarks ->
  b ∈ bookmarks ->
  exists keywordResult,
    keywordResult ∈ keywordResults
    /\ keywordResultToBookmark P keywordResult = Return (Some b).
Proof.
  unfold keywordResultsToBookmarks. intros H Hb.
  apply bind_Return in H as (mapped & Hm & H). injection H as <-.
  apply filter_Boolean_elem in Hb. apply mapM_Return in Hm.
  clear -Hm Hb. induction Hm as [|kr ob krs obs Hf Hrest IH].
  - by apply not_elem_of_nil in Hb.
  - apply elem_of_cons in Hb as [<-|Hb].
    + exists kr. split; [apply elem_of_cons; auto | exact Hf].
    + destruct (IH Hb) as (kr' & Hin & Hkr'). exists kr'.
      split; [apply elem_of_cons; auto | exact Hkr'].
Qed.

Lemma getKeywordBookmarksForTag_elem (P : platform) (tag : jsstring)
    (keywordResults : list (option KeywordRecord))
    (keywordResult : option KeywordRecord) :
  getKeywordBookmarksForTag P tag = Return keywordResults ->
  keywordResult ∈ keywordResults ->
  exists u, u ∈ getURIsForTag P tag
            /\ keywords_fetch P (spec u) = Return keywordResult.
Proof.
  unfold getKeywordBookmarksForTag. intros H Hin.
  apply Promise_all_Return in H.
  assert (Return keywordResult
          ∈ map (fun url => keywords_fetch P url) (map spec (getURIsForTag P tag)))
    as Hr.
  { rewrite H. apply list_elem_of_fmap. eauto. }
  apply list_elem_of_fmap in Hr as (url0 & E & Hu).
  apply list_elem_of_fmap in Hu as (u & -> & Hu).
  exists u. split; [exact Hu | by symmetry].
Qed.

(** C5. A bookmark appears among the candidates of a tag only if it was
    built from the keyword record of a tagged URI whose [url] or whose
    percent-decoded [postData] contains [%s] at least once, and it carries
    exactly these two templates; a record whose [url] and decoded [postData]
    both lack [%s] is turned into [null] without an exception and is removed
    by [filter(Boolean)]. *)
Theorem marker_required (P : platform) (tag : jsstring)
    (bookmarks : list bookmark) (b : bookmark) :
  getCandidates P tag = Return bookmarks ->
  b ∈ bookmarks ->
  (exists u kr,
     u ∈ getURIsForTag P tag
     /\ keywords_fetch P (spec u) = Return (Some kr)
     /\ url b = kr_url kr
     /\ decodedPostData kr = Return (postData b)
     /\ (occurs marker (kr_url kr) \/ occurs marker (postData b)))
  /\ (forall kr pd,
        decodedPostData kr = Return pd ->
        ~ occurs marker (kr_url kr) -> ~ occurs marker pd ->
        keywordResultToBookmark P (Some kr) = Return None
        /\ forall krs, keywordResultsToBookmarks P (Some kr :: krs)
                       = keywordResultsToBookmarks P krs).
Proof.
  intros H Hb. split.
  - unfold getCandidates in H. apply bind_Return in H as (krs & Hkrs & H).
    destruct (keywordResultsToBookmarks_elem _ _ _ _ H Hb) as (kro & Hin & Hkro).
    destruct (getKeywordBookmarksForTag_elem _ _ _ _ Hkrs Hin) as (u & Hu & Hf).
    apply keywordResultToBookmark_Some in Hkro
      as (kr & u' & -> & Hpd & Eu & _ & Hm & _).
    exists u, kr. repeat split; auto.
    apply orb_true_iff in Hm as [Hm|Hm]; apply regex_test_occurs in Hm.
    + left. by rewrite <- Eu.
    + by right.
  - intros kr pd Hpd Hu Hp.
    pose proof (keywordResultToBookmark_no_marker P kr pd Hpd Hu Hp) as E.
    split; [exact E|]. intros krs. unfold keywordResultsToBookmarks.
    cbn [mapM]. rewrite E. cbn [bind].
    destruct (mapM (keywordResultToBookmark P) krs); reflexivity.
Qed.

Lemma marker_required_witness :
  getCandidates Demo.P (str "search") = Return [Demo.bX; Demo.bW; Demo.bP]
  /\ Demo.bP ∈ [Demo.bX; Demo.bW; Demo.bP]
  /\ exists u kr,
       u ∈ getURIsForTag Demo.P (str "search")
       /\ keywords_fetch Demo.P (spec u) = Return (Some kr)
       /\ url Demo.bP = kr_url kr
       /\ decodedPostData kr = Return (postData Demo.bP)
       /\ (occurs marker (kr_url kr) \/ occurs marker (postData Demo.bP)).
Proof.
  assert (getCandidates Demo.P (str "search") = Return [Demo.bX; Demo.bW; Demo.bP])
    as H by (vm_compute; reflexivity).
  assert (Demo.bP ∈ [Demo.bX; Demo.bW; Demo.bP]) as Hb
    by (do 2 apply list_elem_of_further; apply list_elem_of_here).
  split; [exact H|]. split; [exact Hb|].
  apply (marker_required Demo.P (str "search") _ Demo.bP H Hb).
Defined.

(** ** The bookmark behind a keyword record *)

Lemma head_filter_sorted (f : N -> Prop) `{forall i, Decision (f i)} (l : list N)
    (first : N) :
  StronglySorted N.le l ->
  head (filter f l) = Some first ->
  forall i, i ∈ filter f l -> first <= i.
Proof.
  induction 1 as [|x l Hl IH Hx]; intros Hh i Hi.
  - by apply not_elem_of_nil in Hi.
  - rewrite filter_cons in Hh, Hi. destruct (decide (f x)).
    + injection Hh as <-. apply elem_of_cons in Hi as [->|Hi]; [apply N.le_refl|].
      apply list_elem_of_filter in Hi as [_ Hi].
      rewrite Forall_forall in Hx. by apply Hx.
    + by apply IH.
Qed.

(** C9, as amended.  For a record that has the marker and whose URL parses,
    ids of folders and separators are passed over and the first id of type
    bookmark, in the order in which the bookmarks service lists the ids of
    the URI, is selected (item ids being positive); it is the lowest such id
    when that order is ascending; and when the URI has no id of type
    bookmark the record gives [null]. *)
Theorem first_bookmark_id_selected (P : platform) (kr : KeywordRecord)
    (pd : jsstring) (u : nsIURI) :
  decodedPostData kr = Return pd ->
  occurs marker (kr_url kr) \/ occurs marker pd ->
  newURI P (kr_url kr) = Some u ->
  (forall i, i ∈ getBookmarkIdsForURI P u -> i <> 0) ->
  keywordResultToBookmark P (Some kr)
  = Return
      (match filter (fun i => getItemType P i = TYPE_BOOKMARK)
               (getBookmarkIdsForURI P u) with
       | [] => None
       | first :: _ =>
           Some {| id := first;
                   description :=
                     if itemHasAnnotation P first
                     then getItemAnnotation P first else [];
                   title := getItemTitle P first;
                   url := kr_url kr;
                   keyword := kr_keyword kr;
                   iconURL := [];
                   postData := pd |}
       end)
  /\ (StronglySorted N.le (getBookmarkIdsForURI P u) ->
      forall first,
        head (filter (fun i => getItemType P i = TYPE_BOOKMARK)
                (getBookmarkIdsForURI P u)) = Some first ->
        forall i, i ∈ getBookmarkIdsForURI P u ->
                  getItemType P i = TYPE_BOOKMARK -> first <= i).
Proof.
  intros Hpd Hm Hu Hpos. split.
  - unfold keywordResultToBookmark. rewrite Hpd. cbn [bind].
    assert (regex_test marker (kr_url kr) || regex_test marker pd = true) as ->.
    { apply orb_true_iff. destruct Hm as [Hm|Hm]; [left|right];
        by apply regex_test_occurs. }
    cbn [negb]. rewrite Hu.
    assert ((if (0 <? length (getBookmarkIdsForURI P u))%nat
             then find (fun id => getItemType P id =? TYPE_BOOKMARK)
                    (getBookmarkIdsForURI P u)
             else None)
            = head (filter (fun i => getItemType P i = TYPE_BOOKMARK)
                      (getBookmarkIdsForURI P u))) as ->.
    { rewrite <- find_head_filter.
      destruct (getBookmarkIdsForURI P u); reflexivity. }
    destruct (filter _ _) as [|first rest] eqn:Hf; [reflexivity|].
    cbn [head].
    assert (first ∈ getBookmarkIdsForURI P u) as Hin.
    { assert (first ∈ first :: rest) as Hin by apply list_elem_of_here.
      rewrite <- Hf in Hin. by apply list_elem_of_filter in Hin as [_ Hin]. }
    destruct (N.eqb_spec first 0) as [E|_]; [by apply Hpos in Hin|].
    reflexivity.
  - intros Hs first Hh i Hi Ht.
    apply (head_filter_sorted _ _ first Hs Hh).
    apply list_elem_of_filter. auto.
Qed.

Lemma first_bookmark_id_selected_witness :
  decodedPostData Demo.kW = Return []
  /\ (occurs marker (kr_url Demo.kW) \/ occurs marker [])
  /\ newURI Demo.P (kr_url Demo.kW) = Some (Demo.uri_of Demo.uW)
  /\ (forall i, i ∈ getBookmarkIdsForURI Demo.P (Demo.uri_of Demo.uW) -> i <> 0)
  /\ keywordResultToBookmark Demo.P (Some Demo.kW) = Return (Some Demo.bW).
Proof.
  assert (decodedPostData Demo.kW = Return []) as Hpd by reflexivity.
  assert (occurs marker (kr_url Demo.kW) \/ occurs marker []) as Hm.
  { left. apply regex_test_occurs. vm_compute. reflexivity. }
  assert (newURI Demo.P (kr_url Demo.kW) = Some (Demo.uri_of Demo.uW)) as Hu
    by (vm_compute; reflexivity).
  assert (forall i, i ∈ getBookmarkIdsForURI Demo.P (Demo.uri_of Demo.uW) -> i <> 0)
    as Hpos.
  { intros i Hi. change (i ∈ [2; 7]) in Hi.
    apply elem_of_cons in Hi as [->|Hi]; [lia|].
    apply list_elem_of_singleton in Hi as ->. lia. }
  split; [exact Hpd|]. split; [exact Hm|]. split; [exact Hu|]. split; [exact Hpos|].
  apply (first_bookmark_id_selected Demo.P Demo.kW [] _ Hpd Hm Hu Hpos).
Defined.

(** C9 as it was stated fails: the URL of the record "x" is bookmarked under
    the ids 5 and 3, listed in this order and both of type bookmark, and the
    bookmark built has the id 5, not the lowest id 3. *)
Lemma lowest_id_not_selected :
  getBookmarkIdsForURI Demo.P (Demo.uri_of Demo.uX) = [5; 3]
  /\ getItemType Demo.P 5 = TYPE_BOOKMARK
  /\ getItemType Demo.P 3 = TYPE_BOOKMARK
  /\ exists b, keywordResultToBookmark Demo.P (Some Demo.kX) = Return (Some b)
               /\ id b = 5 /\ 3 < id b.
Proof.
  split; [reflexivity|]. split; [reflexivity|]. split; [reflexivity|].
  exists Demo.bX. split; [vm_compute; reflexivity|]. split; [reflexivity|].
  cbn. lia.
Qed.

(** ** Stable sorting *)

Section StableSort.
Context {A : Type} (cmp : A -> A -> Z).

Hypothesis total : forall x y, (0 < cmp x y)%Z -> comes_before cmp y x.
Hypothesis trans :
  forall x y z, comes_before cmp x y -> comes_before cmp y z -> comes_before cmp x z.

Lemma insert_pure_perm (x : A) (l : list A) :
  Permutation (x :: l) (insert_pure cmp x l).
Proof.
  induction l as [|y l IH]; cbn [insert_pure]; [reflexivity|].
  destruct (0 <? cmp x y)%Z; [|reflexivity].
  rewrite perm_swap. by constructor.
Qed.

Lemma sort_pure_perm (l : list A) : Permutation l (sort_pure cmp l).
Proof.
  induction l as [|x l IH]; cbn [sort_pure]; [reflexivity|].
  rewrite <- insert_pure_perm. by constructor.
Qed.

Lemma insert_pure_sorted (x : A) (l : list A) :
  StronglySorted (comes_before cmp) l ->
  StronglySorted (comes_before cmp) (insert_pure cmp x l).
Proof using total trans.
  induction 1 as [|y l Hl IH Hy]; cbn [insert_pure].
  - repeat constructor.
  - destruct (Z.ltb_spec 0 (cmp x y)) as [Hlt|Hle].
    + constructor; [exact IH|].
      rewrite <- insert_pure_perm. constructor; [by apply total | exact Hy].
    + constructor; [by constructor|]. constructor; [exact Hle|].
      eapply Forall_impl; [exact Hy|]. intros z Hz. by apply (trans x y z).
Qed.

Lemma sort_pure_sorted (l : list A) :
  StronglySorted (comes_before cmp) (sort_pure cmp l).
Proof using total trans.
  induction l as [|x l IH]; cbn [sort_pure]; [constructor|].
  by apply insert_pure_sorted.
Qed.

(** A class of elements none of which comes after another keeps its
    order. *)
Context (Q : A -> Prop) `{forall x, Decision (Q x)}.
Hypothesis tied : forall x y, Q x -> Q y -> comes_before cmp x y.

Lemma insert_pure_filter (x : A) (l : list A) :
  filter Q (insert_pure cmp x l) = filter Q (x :: l).
Proof using tied.
  induction l as [|y l IH]; cbn [insert_pure]; [reflexivity|].
  destruct (Z.ltb_spec 0 (cmp x y)) as [Hlt|Hle]; [|reflexivity].
  rewrite (filter_cons _ y), IH, !(filter_cons _ x), (filter_cons _ y).
  destruct (decide (Q y)) as [Hy|Hy]; [|reflexivity].
  destruct (decide (Q x)) as [Hx|Hx]; [|reflexivity].
  pose proof (tied x y Hx Hy) as Hb. unfold comes_before in Hb. lia.
Qed.

Lemma sort_pure_filter (l : list A) : filter Q (sort_pure cmp l) = filter Q l.
Proof using tied.
  induction l as [|x l IH]; cbn [sort_pure]; [reflexivity|].
  by rewrite insert_pure_filter, !filter_cons, IH.
Qed.
End StableSort.

Lemma insert_sorted_pure {A} (cmpM : A -> A -> result Z) (cmp : A -> A -> Z)
    (x : A) (l : list A) :
  (forall y, y ∈ l -> cmpM x y = Return (cmp x y)) ->
  insert_sorted cmpM x l = Return (insert_pure cmp x l).
Proof.
  induction l as [|y l IH]; intros H; cbn [insert_sorted insert_pure]; [reflexivity|].
  rewrite (H y) by apply list_elem_of_here. cbn [bind].
  destruct (0 <? cmp x y)%Z; [|reflexivity].
  rewrite IH; [reflexivity|]. intros z Hz. apply H. by apply list_elem_of_further.
Qed.

Lemma Array_sort_pure {A} (cmpM : A -> A -> result Z) (cmp : A -> A -> Z)
    (l : list A) :
  (forall x y, x ∈ l -> y ∈ l -> cmpM x y = Return (cmp x y)) ->
  Array_sort cmpM l = Return (sort_pure cmp l).
Proof.
  induction l as [|x l IH]; intros H; cbn [Array_sort sort_pure]; [reflexivity|].
  rewrite IH; cbn [bind].
  - apply insert_sorted_pure. intros y Hy. apply H; [apply list_elem_of_here|].
    apply list_elem_of_further. by rewrite (sort_pure_perm cmp l).
  - intros y z Hy Hz. apply H; by apply list_elem_of_further.
Qed.

(** ** Sorting the bookmarks of the store *)

Lemma compareTitles_bookmarks (P : platform) (h : heap) (x y : value) :
  is_bookmark h x -> is_bookmark h y ->
  compareTitles P h x y = Return (compare_at P h x y).
Proof.
  intros (lx & bx & -> & Hx) (ly & b_y & -> & Hy).
  unfold compareTitles, compare_at, title_at, title_of. by rewrite Hx, Hy.
Qed.

Lemma sortBookmarksByTitle_bookmarks (P : platform) (h : heap) (a : loc)
    (vs : list value) :
  arrays h !! a = Some vs ->
  Forall (is_bookmark h) vs ->
  sortBookmarksByTitle P a h
  = (Return a, {| objects := objects h;
                  arrays := <[a := sort_pure (compare_at P h) vs]> (arrays h) |}).
Proof.
  intros Ha Hvs. unfold sortBookmarksByTitle. rewrite Ha.
  rewrite (Array_sort_pure _ (compare_at P h)); [reflexivity|].
  rewrite Forall_forall in Hvs. intros x y Hx Hy.
  apply compareTitles_bookmarks; by apply Hvs.
Qed.

(** ** The collation of the examples is consistent *)

Lemma lex_refl (a : list N) : Demo.lex a a = Eq.
Proof. induction a as [|x a IH]; [reflexivity|]. cbn. by rewrite N.compare_refl. Qed.

Lemma lex_antisym (a b : list N) : Demo.lex b a = CompOpp (Demo.lex a b).
Proof.
  revert b. induction a as [|x a IH]; intros [|y b]; try reflexivity.
  cbn [Demo.lex]. rewrite (N.compare_antisym x y).
  destruct (x ?= y); cbn [CompOpp]; auto.
Qed.

Lemma lex_trans (a b c : list N) :
  Demo.lex a b <> Gt -> Demo.lex b c <> Gt -> Demo.lex a c <> Gt.
Proof.
  revert b c. induction a as [|x a IH]; intros [|y b] [|z c]; cbn [Demo.lex];
    try congruence.
  destruct (N.compare_spec x y) as [->|Hxy|Hxy]; try congruence.
  - destruct (N.compare_spec y z) as [->|Hyz|Hyz]; try congruence. apply IH.
  - intros _. destruct (N.compare_spec y z) as [->|Hyz|Hyz]; try congruence.
    + intros _. destruct (N.compare_spec x z); [lia | congruence | lia].
    + intros _. destruct (N.compare_spec x z); [lia | congruence | lia].
Qed.

Lemma collate_le (a b : jsstring) :
  (Demo.collate a b <= 0)%Z
  <-> Demo.lex (Demo.collationKey a) (Demo.collationKey b) <> Gt.
Proof.
  unfold Demo.collate.
  destruct (Demo.lex (Demo.collationKey a) (Demo.collationKey b)); split; intros H;
    try congruence; try lia.
Qed.

Lemma collate_consistent : consistent Demo.collate.
Proof.
  split.
  - intros a. unfold Demo.collate. by rewrite lex_refl.
  - intros a b H. apply collate_le. rewrite lex_antisym.
    unfold Demo.collate in H.
    destruct (Demo.lex (Demo.collationKey a) (Demo.collationKey b));
      cbn [CompOpp]; try congruence; lia.
  - intros a b c. rewrite !collate_le. apply lex_trans.
Qed.

(** C6. For every array of bookmark objects, [sortBookmarksByTitle] leaves
    in it the same objects in ascending order of title under the collation
    of [localeCompare] (taken as a consistent order), and objects with equal
    titles keep the order they had; the titles "B", "a", "C" come out as
    "a", "B", "C". *)
Theorem sortBookmarksByTitle_sorted_stable (P : platform) (h : heap) (a : loc)
    (vs : list value) :
  consistent (localeCompare P) ->
  arrays h !! a = Some vs ->
  Forall (is_bookmark h) vs ->
  (exists sorted,
     sortBookmarksByTitle P a h
     = (Return a, {| objects := objects h; arrays := <[a := sorted]> (arrays h) |})
     /\ Permutation vs sorted
     /\ StronglySorted (comes_before (compare_at P h)) sorted
     /\ forall t, filter (fun v => title_at h v = t) sorted
                  = filter (fun v => title_at h v = t) vs)
  /\ (map (title_at Demo.store) <$> arrays Demo.store !! 1%positive)
     = Some [str "B"; str "a"; str "C"]
  /\ (sorted <- items (sortBookmarksByTitle Demo.P 1%positive Demo.store) ;;
      Return (map (title_at Demo.store) sorted))
     = Return [str "a"; str "B"; str "C"].
Proof.
  intros [Hrefl Htotal Htrans] Ha Hvs. split; [|split; vm_compute; reflexivity].
  exists (sort_pure (compare_at P h) vs). split; [|split; [|split]].
  - by apply sortBookmarksByTitle_bookmarks.
  - apply sort_pure_perm.
  - apply sort_pure_sorted.
    + intros x y. apply Htotal.
    + intros x y z. apply Htrans.
  - intros t. apply sort_pure_filter. intros x y <- Hy.
    unfold comes_before, compare_at. rewrite Hy, Hrefl. lia.
Qed.

Lemma sortBookmarksByTitle_sorted_stable_witness :
  consistent (localeCompare Demo.P)
  /\ arrays Demo.store !! 1%positive
     = Some [VObj 1%positive; VObj 2%positive; VObj 3%positive]
  /\ Forall (is_bookmark Demo.store)
       [VObj 1%positive; VObj 2%positive; VObj 3%positive]
  /\ exists sorted,
       sortBookmarksByTitle Demo.P 1%positive Demo.store
       = (Return 1%positive,
          {| objects := objects Demo.store;
             arrays := <[1%positive := sorted]> (arrays Demo.store) |})
       /\ Permutation [VObj 1%positive; VObj 2%positive; VObj 3%positive] sorted
       /\ StronglySorted (comes_before (compare_at Demo.P Demo.store)) sorted
       /\ forall t, filter (fun v => title_at Demo.store v = t) sorted
                    = filter (fun v => title_at Demo.store v = t)
                        [VObj 1%positive; VObj 2%positive; VObj 3%positive].
Proof.
  assert (consistent (localeCompare Demo.P)) as Hc by exact collate_consistent.
  assert (arrays Demo.store !! 1%positive
          = Some [VObj 1%positive; VObj 2%positive; VObj 3%positive]) as Ha
    by (vm_compute; reflexivity).
  assert (Forall (is_bookmark Demo.store)
            [VObj 1%positive; VObj 2%positive; VObj 3%positive]) as Hvs.
  { repeat apply Forall_cons_2; try apply Forall_nil_2.
    - exists 1%positive, Demo.bX. split; [reflexivity | vm_compute; reflexivity].
    - exists 2%positive, Demo.bW. split; [reflexivity | vm_compute; reflexivity].
    - exists 3%positive, Demo.bP. split; [reflexivity | vm_compute; reflexivity]. }
  split; [exact Hc|]. split; [exact Ha|]. split; [exact Hvs|].
  apply (sortBookmarksByTitle_sorted_stable Demo.P Demo.store 1%positive _ Hc Ha Hvs).
Defined.

(** ** One lookup that fails *)

Lemma keywordResultsToBookmarks_cons (P : platform)
    (keywordResult : option KeywordRecord) (krs : list (option KeywordRecord)) :
  keywordResultsToBookmarks P (keywordResult :: krs)
  = (ob <- keywordResultToBookmark P keywordResult ;;
     bs <- keywordResultsToBookmarks P krs ;;
     Return (match ob with Some b => b :: bs | None => bs end)).
Proof.
  unfold keywordResultsToBookmarks. cbn [mapM].
  destruct (keywordResultToBookmark P keywordResult) as [[b|]|e]; cbn [bind];
    destruct (mapM (keywordResultToBookmark P) krs); reflexivity.
Qed.

(** A [null] among the keyword results makes the conversion throw. *)
Lemma null_record_throws (P : platform) (krs : list (option KeywordRecord)) :
  None ∈ krs -> exists e, keywordResultsToBookmarks P krs = Throw e.
Proof.
  induction krs as [|kr krs IH]; intros H.
  - by apply not_elem_of_nil in H.
  - rewrite keywordResultsToBookmarks_cons.
    apply elem_of_cons in H as [<-|H]; [cbn; eauto|].
    destruct (keywordResultToBookmark P kr) as [ob|e]; cbn [bind]; [|eauto].
    destruct (IH H) as [e ->]. cbn [bind]. eauto.
Qed.

(** A rejected keyword lookup rejects the whole of [Promise.all]. *)
Lemma rejected_fetch_rejects (P : platform) (tag : jsstring) (u : nsIURI) (e : error) :
  u ∈ getURIsForTag P tag ->
  keywords_fetch P (spec u) = Throw e ->
  exists e', getCandidates P tag = Throw e'.
Proof.
  intros Hu He. unfold getCandidates, getKeywordBookmarksForTag.
  destruct (Promise_all_Throw
              (map (fun url => keywords_fetch P url) (map spec (getURIsForTag P tag))) e)
    as [e' ->]; [|cbn; eauto].
  rewrite <- He. apply list_elem_of_fmap. exists (spec u). split; [reflexivity|].
  apply list_elem_of_fmap. eauto.
Qed.

(** A record that is dropped for want of a marker or of a bookmark leaves the
    candidates of the other records as they are. *)
Lemma dropped_record_isolated (P : platform) (kr : KeywordRecord)
    (krs : list (option KeywordRecord)) :
  keywordResultToBookmark P (Some kr) = Return None ->
  keywordResultsToBookmarks P (Some kr :: krs) = keywordResultsToBookmarks P krs.
Proof.
  intros H. rewrite keywordResultsToBookmarks_cons, H. cbn [bind].
  destruct (keywordResultsToBookmarks P krs); reflexivity.
Qed.

(** C2, the code at the failing input.  The tag "mixed" has two URIs: the
    first has the keyword record "x", which alone gives the bookmark 5, and
    the second has no keyword, so that its lookup resolves with [null].  The
    conversion then throws a TypeError and the candidates of the tag are
    lost as a whole; a lookup that rejects (tag "flaky") rejects the batch
    in the same way. *)
Theorem missing_keyword_aborts_batch :
  map spec (getURIsForTag Demo.P (str "mixed")) = [Demo.uX; Demo.uNone]
  /\ keywords_fetch Demo.P Demo.uX = Return (Some Demo.kX)
  /\ keywords_fetch Demo.P Demo.uNone = Return None
  /\ keywordResultsToBookmarks Demo.P [Some Demo.kX] = Return [Demo.bX]
  /\ getCandidates Demo.P (str "mixed") = Throw TypeError
  /\ map spec (getURIsForTag Demo.P (str "flaky")) = [Demo.uX; Demo.uErr]
  /\ keywords_fetch Demo.P Demo.uErr = Throw (PlacesError 1)
  /\ getCandidates Demo.P (str "flaky") = Throw (PlacesError 1).
Proof. repeat split; vm_compute; reflexivity. Qed.

(** ** Nothing to show *)

Lemma keywordBookmarks_no_candidates (P : platform) (tag : jsstring) (h : heap) :
  getCandidates P tag = Return [] ->
  items (keywordBookmarks P tag h) = Return [].
Proof.
  intros H. unfold keywordBookmarks. rewrite H.
  cbn [alloc_objects promiseAllBookmarksWithFavicons resolveFavicons].
  unfold alloc_array, sortBookmarksByTitle. cbn [arrays objects].
  rewrite lookup_insert_eq. cbn [Array_sort items arrays].
  by rewrite lookup_insert_eq.
Qed.

(** No bookmark carries the tag: the chain resolves with an empty array. *)
Lemma untagged_empty (P : platform) (tag : jsstring) (h : heap) :
  getURIsForTag P tag = [] ->
  items (keywordBookmarks P tag h) = Return [].
Proof.
  intros H. apply keywordBookmarks_no_candidates.
  unfold getCandidates, getKeywordBookmarksForTag. by rewrite H.
Qed.

(** Every tagged URI has a keyword record and none of the records has the
    marker: the chain resolves with an empty array. *)
Lemma no_marker_empty (P : platform) (tag : jsstring) (h : heap) :
  Forall (fun u => exists kr pd,
            keywords_fetch P (spec u) = Return (Some kr)
            /\ decodedPostData kr = Return pd
            /\ ~ occurs marker (kr_url kr) /\ ~ occurs marker pd)
    (getURIsForTag P tag) ->
  items (keywordBookmarks P tag h) = Return [].
Proof.
  intros H. apply keywordBookmarks_no_candidates.
  unfold getCandidates, getKeywordBookmarksForTag.
  induction H as [|u us (kr & pd & Hf & Hpd & Hu & Hp) Hus IH]; [reflexivity|].
  cbn [map Promise_all]. rewrite Hf. cbn [bind].
  destruct (Promise_all _) as [krs|e]; cbn [bind] in *; [|discriminate].
  rewrite dropped_record_isolated; [exact IH|].
  by apply (keywordResultToBookmark_no_marker P kr pd).
Qed.

(** The tag is the empty string: the chain is not started. *)
Lemma empty_tag_not_started (P : platform) (h : heap) :
  onPopupShown_keywordBookmarks P [] h = (NotStarted, h).
Proof. reflexivity. Qed.

(** What the chain rejects with is logged by its final [catch]. *)
Lemma rejection_logged (P : platform) (tag : jsstring) (h : heap) (e : error) :
  truthy tag = true ->
  items (keywordBookmarks P tag h) = Throw e ->
  exists h', onPopupShown_keywordBookmarks P tag h = (Logged e, h').
Proof.
  intros Ht H. unfold onPopupShown_keywordBookmarks. rewrite Ht. cbn [negb].
  destruct (keywordBookmarks P tag h) as [[a|e'] h']; cbn [items] in H;
    [discriminate|]. injection H as ->. eauto.
Qed.

(** The tag "nokeyword" has one tagged URI, which has no keyword, so that
    its lookup resolves with [null]: the chain rejects with a TypeError,
    which the final [catch] logs. *)
Lemma untemplated_tag_raises :
  map spec (getURIsForTag Demo.P (str "nokeyword")) = [Demo.uNone]
  /\ keywords_fetch Demo.P Demo.uNone = Return None
  /\ items (keywordBookmarks Demo.P (str "nokeyword") empty_heap) = Throw TypeError
  /\ onPopupShown_keywordBookmarks Demo.P (str "nokeyword") empty_heap
     = (Logged TypeError, empty_heap).
Proof. repeat split; vm_compute; reflexivity. Qed.

Lemma getSubmission_encode_throws (P : platform) (b : bookmark) (text : jsstring)
    (e : error) :
  encodeURIComponent text = Throw e ->
  getSubmission P b text = Throw e /\ onMenuClicked_submission P b text = Throw e.
Proof.
  intros H. unfold onMenuClicked_submission, getSubmission, encodeText.
  rewrite H. split; reflexivity.
Qed.

(** C3, as amended.  The chain started by MCS.onPopupShown leaves no error
    unhandled: what it rejects with is caught and logged by its final
    [catch].  With an empty tag the chain is not started; when no bookmark
    carries the tag, or when every tagged URI has a keyword record and none
    of the records contains [%s] in its [url] or decoded [postData], the
    chain resolves with an empty array.  [getSubmission] is another matter:
    what [encodeURIComponent] throws leaves it and leaves MCS.onMenuClicked
    too. *)
Theorem chain_degrades_to_empty (P : platform) (tag : jsstring) (h : heap) :
  Forall (fun u => exists kr pd,
            keywords_fetch P (spec u) = Return (Some kr)
            /\ decodedPostData kr = Return pd
            /\ ~ occurs marker (kr_url kr) /\ ~ occurs marker pd)
    (getURIsForTag P tag) ->
  items (keywordBookmarks P tag h) = Return []
  /\ (forall tag', getURIsForTag P tag' = [] ->
                   items (keywordBookmarks P tag' h) = Return [])
  /\ onPopupShown_keywordBookmarks P [] h = (NotStarted, h)
  /\ (forall tag' e,
        truthy tag' = true ->
        items (keywordBookmarks P tag' h) = Throw e ->
        exists h', onPopupShown_keywordBookmarks P tag' h = (Logged e, h'))
  /\ (forall b text e,
        encodeURIComponent text = Throw e ->
        getSubmission P b text = Throw e
        /\ onMenuClicked_submission P b text = Throw e).
Proof.
  intros H. split; [by apply no_marker_empty|].
  split; [intros tag' Ht; by apply untagged_empty|].
  split; [reflexivity|].
  split; [intros tag' e; apply rejection_logged|].
  intros b text e. apply getSubmission_encode_throws.
Qed.

Lemma chain_degrades_to_empty_witness :
  Forall (fun u => exists kr pd,
            keywords_fetch Demo.P (spec u) = Return (Some kr)
            /\ decodedPostData kr = Return pd
            /\ ~ occurs marker (kr_url kr) /\ ~ occurs marker pd)
    (getURIsForTag Demo.P (str "plain"))
  /\ items (keywordBookmarks Demo.P (str "plain") empty_heap) = Return [].
Proof.
  assert (Forall (fun u => exists kr pd,
                    keywords_fetch Demo.P (spec u) = Return (Some kr)
                    /\ decodedPostData kr = Return pd
                    /\ ~ occurs marker (kr_url kr) /\ ~ occurs marker pd)
            (getURIsForTag Demo.P (str "plain"))) as H.
  { change (getURIsForTag Demo.P (str "plain")) with [Demo.uri_of Demo.uPlain].
    apply Forall_cons_2; [|apply Forall_nil_2].
    exists Demo.kPlain, []. split; [vm_compute; reflexivity|].
    split; [reflexivity|].
    split; apply regex_test_free; vm_compute; reflexivity. }
  split; [exact H|].
  exact (proj1 (chain_degrades_to_empty Demo.P (str "plain") empty_heap H)).
Defined.

(** C3 as it was stated fails: for a text that is an unpaired surrogate,
    [encodeURIComponent] throws a URIError in [getSubmission]; nothing
    catches it there or in MCS.onMenuClicked. *)
Lemma getSubmission_unpaired_surrogate_throws :
  getSubmission Demo.P Demo.bX [55296] = Throw URIError
  /\ onMenuClicked_submission Demo.P Demo.bX [55296] = Throw URIError.
Proof. split; vm_compute; reflexivity. Qed.

(** ** Favicons *)

Lemma resolveFavicons_length (P : platform) (bookmarks : list loc) (h : heap) :
  length (resolveFavicons P bookmarks h).1 = length bookmarks.
Proof.
  revert h. induction bookmarks as [|b rest IH]; intros h; [reflexivity|].
  cbn [resolveFavicons]. destruct (resolveBookmarkFavicon P b h) as [v h1].
  specialize (IH h1). destruct (resolveFavicons P rest h1) as [vs h2].
  cbn in *. by rewrite IH.
Qed.

Lemma promiseAllBookmarksWithFavicons_array (P : platform) (bookmarks : list loc)
    (h : heap) :
  let '(a, h') := promiseAllBookmarksWithFavicons P bookmarks h in
  arrays h' !! a = Some (resolveFavicons P bookmarks h).1
  /\ (a ∉ dom (arrays h))
  /\ objects h' = objects (resolveFavicons P bookmarks h).2.
Proof.
  unfold promiseAllBookmarksWithFavicons.
  destruct (resolveFavicons P bookmarks h) as [vs h1] eqn:E.
  cbn [alloc_array arrays objects fst snd]. split; [apply lookup_insert_eq|].
  split; [|reflexivity].
  assert (arrays h1 = arrays h) as ->; [|apply is_fresh].
  revert h vs h1 E. induction bookmarks as [|b rest IH]; intros h vs h1 E.
  - by injection E as <- <-.
  - cbn [resolveFavicons] in E.
    destruct (resolveBookmarkFavicon P b h) as [v h0] eqn:Eb.
    destruct (resolveFavicons P rest h0) as [vs' h2] eqn:Er.
    injection E as <- <-. rewrite (IH _ _ _ Er).
    unfold resolveBookmarkFavicon in Eb.
    destruct (promiseFaviconData P (url_at h b)) as [d|e];
      [destruct (dataLen d =? 0)|]; by injection Eb as <- <-.
Qed.

(** Favicon data of length zero: the promise resolves with the default
    favicon's URL, and nothing is written. *)
Lemma resolveBookmarkFavicon_zero_length (P : platform) (r : loc) (h : heap)
    (d : faviconData) :
  promiseFaviconData P (url_at h r) = Return d ->
  dataLen d = 0 ->
  resolveBookmarkFavicon P r h = (VStr (getDefaultFavicon P), h).
Proof. intros Hd Hz. unfold resolveBookmarkFavicon. by rewrite Hd, Hz. Qed.

Lemma dataURI_nonempty (d : faviconData) : dataURI d <> [].
Proof. discriminate. Qed.


(** C1, the code at the failing input.  Of the three bookmark objects of the
    store, the first has favicon data, the second a favicon of length zero,
    and for the third the fetch is rejected.  The array that
    [promiseAllBookmarksWithFavicons] resolves with has three elements, but
    the second is the default favicon's URL, a string, in the place of the
    bookmark, and the second bookmark object still has an empty [iconURL];
    the first carries a data URI and the third the default favicon. *)
Theorem zero_length_favicon_replaces_bookmark :
  url_at Demo.store 2%positive = Demo.uW
  /\ promiseFaviconData Demo.P Demo.uW = Return Demo.no_octets
  /\ dataLen Demo.no_octets = 0
  /\ (let '(a, h) :=
        promiseAllBookmarksWithFavicons Demo.P [1; 2; 3]%positive Demo.store in
      arrays h !! a = Some [VObj 1%positive; VStr Demo.icon; VObj 3%positive]
      /\ (iconURL <$> objects h !! 1%positive)
         = Some (str "data:image/png;base64,iVBORw==")
      /\ (iconURL <$> objects h !! 2%positive) = Some []
      /\ (iconURL <$> objects h !! 3%positive) = Some Demo.icon).
Proof. repeat split; vm_compute; reflexivity. Qed.

(** C10, the code at the failing input.  For the bookmark whose favicon has
    length zero the fetch succeeds, yet the promise resolves with a string
    and not with the reference it was given, and the store is unchanged: no
    [iconURL] is written.  The other two resolve with their own reference
    and the object behind it is changed where it is; the sort puts the array
    in order where it is and returns the same reference. *)
Theorem zero_length_favicon_not_in_place :
  resolveBookmarkFavicon Demo.P 2%positive Demo.store = (VStr Demo.icon, Demo.store)
  /\ resolveBookmarkFavicon Demo.P 1%positive Demo.store
     = (VObj 1%positive,
        Object_assign_iconURL 1%positive (str "data:image/png;base64,iVBORw==")
          Demo.store)
  /\ resolveBookmarkFavicon Demo.P 3%positive Demo.store
     = (VObj 3%positive, Object_assign_iconURL 3%positive Demo.icon Demo.store)
  /\ sortBookmarksByTitle Demo.P 1%positive Demo.store
     = (Return 1%positive,
        {| objects := objects Demo.store;
           arrays := <[1%positive := [VObj 2%positive; VObj 1%positive; VObj 3%positive]]>
                       (arrays Demo.store) |}).
Proof. repeat split; vm_compute; reflexivity. Qed.

(* ===================================================================== *)
(** * Further properties of index.js *)
(* ===================================================================== *)

(** ** The escaped text can be decoded *)

(** A check of the sixteen hexadecimal digits, one by one. *)
Lemma every_nibble (p : N -> bool) :
  forallb p (map N.of_nat (seq 0 16)) = true -> forall n, n < 16 -> p n = true.
Proof.
  intros Hall n Hn. rewrite forallb_forall in Hall. apply Hall.
  apply in_map_iff. exists (N.to_nat n). split; [lia|]. apply in_seq. lia.
Qed.

Lemma hexValue_hexDigit (n : N) : n < 16 -> hexValue (hexDigit n) = Some n.
Proof.
  intros H.
  apply (bool_decide_eq_true_1 (hexValue (hexDigit n) = Some n)).
  revert n H.
  apply (every_nibble (fun n => bool_decide (hexValue (hexDigit n) = Some n))).
  vm_compute. reflexivity.
Qed.

Lemma unescape_pct (b : N) (r : jsstring) :
  b < 256 ->
  unescape (pct b ++ r) = (ps <- unescape r ;; Return (Octet b :: ps)).
Proof.
  intros Hb. unfold pct. cbn [app unescape].
  change (37 =? 37) with true. cbv iota.
  assert (b / 16 < 16) as H1 by (apply N.Div0.div_lt_upper_bound; lia).
  assert (b mod 16 < 16) as H2 by (apply N.mod_lt; lia).
  rewrite (hexValue_hexDigit _ H1), (hexValue_hexDigit _ H2).
  pose proof (N.div_mod b 16 ltac:(lia)) as E. rewrite <- E. reflexivity.
Qed.

Lemma unescape_octets (os : list N) (r : jsstring) :
  Forall (fun b => b < 256) os ->
  unescape (concat (map pct os) ++ r)
  = (ps <- unescape r ;; Return (map Octet os ++ ps)).
Proof.
  induction 1 as [|b os Hb Hos IH]; cbn [map concat app].
  - destruct (unescape r); reflexivity.
  - rewrite <- app_assoc, (unescape_pct _ _ Hb), IH.
    destruct (unescape r); reflexivity.
Qed.

Lemma unescape_lit (c : N) (r : jsstring) :
  c <> 37 ->
  unescape (c :: r) = (ps <- unescape r ;; Return (Lit c :: ps)).
Proof.
  intros H. cbn [unescape]. destruct (N.eqb_spec c 37); [done | reflexivity].
Qed.

(** A Unicode scalar value: a code point that is not a surrogate. *)
Lemma utf8_octets (v : N) : v < 1114112 -> Forall (fun b => b < 256) (utf8 v).
Proof.
  intros H. unfold utf8.
  replace (v / 262144) with (v / 64 / 64 / 64) by (by rewrite !N.Div0.div_div).
  replace (v / 4096) with (v / 64 / 64) by (by rewrite !N.Div0.div_div).
  pose proof (N.div_mod v 64 ltac:(lia)) as E1.
  pose proof (N.mod_lt v 64 ltac:(lia)) as L1.
  pose proof (N.div_mod (v / 64) 64 ltac:(lia)) as E2.
  pose proof (N.mod_lt (v / 64) 64 ltac:(lia)) as L2.
  pose proof (N.div_mod (v / 64 / 64) 64 ltac:(lia)) as E3.
  pose proof (N.mod_lt (v / 64 / 64) 64 ltac:(lia)) as L3.
  set (q3 := v / 64 / 64 / 64) in *. set (r3 := (v / 64 / 64) mod 64) in *.
  set (q2 := v / 64 / 64) in *. set (r2 := (v / 64) mod 64) in *.
  set (q1 := v / 64) in *. set (r1 := v mod 64) in *.
  clearbody q3 r3 q2 r2 q1 r1.
  destruct (N.ltb_spec v 128); [|destruct (N.ltb_spec v 2048);
    [|destruct (N.ltb_spec v 65536)]];
    repeat (apply Forall_cons_2; [cbv beta; lia|]); apply Forall_nil_2.
Qed.

Lemma assemble_utf8 (v : N) (ps : list piece) :
  v < 1114112 -> ~ (55296 <= v <= 57343) ->
  assemble (map Octet (utf8 v) ++ ps)
  = (r <- assemble ps ;; Return (utf16 v ++ r)).
Proof.
  intros Hv Hs. unfold utf8, utf16.
  replace (v / 262144) with (v / 64 / 64 / 64) by (by rewrite !N.Div0.div_div).
  replace (v / 4096) with (v / 64 / 64) by (by rewrite !N.Div0.div_div).
  pose proof (N.div_mod v 64 ltac:(lia)) as E1.
  pose proof (N.mod_lt v 64 ltac:(lia)) as L1.
  pose proof (N.div_mod (v / 64) 64 ltac:(lia)) as E2.
  pose proof (N.mod_lt (v / 64) 64 ltac:(lia)) as L2.
  pose proof (N.div_mod (v / 64 / 64) 64 ltac:(lia)) as E3.
  pose proof (N.mod_lt (v / 64 / 64) 64 ltac:(lia)) as L3.
  set (q3 := v / 64 / 64 / 64) in *. set (r3 := (v / 64 / 64) mod 64) in *.
  set (q2 := v / 64 / 64) in *. set (r2 := (v / 64) mod 64) in *.
  set (q1 := v / 64) in *. set (r1 := v mod 64) in *.
  clearbody q3 r3 q2 r2 q1 r1.
  destruct (N.ltb_spec v 128) as [H1|H1];
    [|destruct (N.ltb_spec v 2048) as [H2|H2];
      [|destruct (N.ltb_spec v 65536) as [H3|H3]]];
    cbn [map app assemble]; unfold isContinuation;
    repeat match goal with
           | |- context [?a <? ?b] => destruct (N.ltb_spec a b); try lia
           | |- context [?a <=? ?b] => destruct (N.leb_spec a b); try lia
           end;
    cbn [andb negb].
  all: try replace ((192 + q1 - 192) * 64 + (128 + r1 - 128)) with v by lia.
  all: try replace ((224 + q2 - 224) * 4096 + (128 + r2 - 128) * 64
                    + (128 + r1 - 128)) with v by lia.
  all: try replace ((240 + q3 - 240) * 262144 + (128 + r3 - 128) * 4096
                    + (128 + r2 - 128) * 64 + (128 + r1 - 128)) with v by lia.
  all: try (unfold utf16; destruct (N.ltb_spec v 65536); [lia|]).
  all: reflexivity.
Qed.

Lemma decode_literal (c : N) (r s : jsstring) :
  c <> 37 ->
  decodeURIComponent r = Return s ->
  decodeURIComponent (c :: r) = Return (c :: s).
Proof.
  unfold decodeURIComponent. intros Hc H.
  apply bind_Return in H as (ps & Hps & H).
  rewrite (unescape_lit _ _ Hc), Hps. cbn [bind assemble]. by rewrite H.
Qed.

Lemma decode_escaped (v : N) (r s : jsstring) :
  v < 1114112 -> ~ (55296 <= v <= 57343) ->
  decodeURIComponent r = Return s ->
  decodeURIComponent (pctEncode v ++ r) = Return (utf16 v ++ s).
Proof.
  unfold decodeURIComponent, pctEncode. intros Hv Hs H.
  apply bind_Return in H as (ps & Hps & H).
  rewrite (unescape_octets _ _ (utf8_octets _ Hv)), Hps. cbn [bind].
  by rewrite (assemble_utf8 _ _ Hv Hs), H.
Qed.

Lemma surrogate_pair_value (c k : N) :
  isHighSurrogate c = true -> isLowSurrogate k = true ->
  let v := (c - 55296) * 1024 + (k - 56320) + 65536 in
  v < 1114112 /\ ~ (55296 <= v <= 57343) /\ utf16 v = [c; k].
Proof.
  unfold isHighSurrogate, isLowSurrogate. intros Hc Hk.
  apply andb_true_iff in Hc as [Hc1 Hc2]. apply andb_true_iff in Hk as [Hk1 Hk2].
  apply N.leb_le in Hc1, Hc2, Hk1, Hk2. cbv zeta.
  split; [lia|]. split; [lia|]. unfold utf16.
  destruct (N.ltb_spec ((c - 55296) * 1024 + (k - 56320) + 65536) 65536); [lia|].
  replace ((c - 55296) * 1024 + (k - 56320) + 65536 - 65536)
    with ((c - 55296) * 1024 + (k - 56320)) by lia.
  pose proof (N.div_mod ((c - 55296) * 1024 + (k - 56320)) 1024 ltac:(lia)) as E.
  pose proof (N.mod_lt ((c - 55296) * 1024 + (k - 56320)) 1024 ltac:(lia)) as L.
  revert E L.
  generalize (((c - 55296) * 1024 + (k - 56320)) / 1024).
  generalize (((c - 55296) * 1024 + (k - 56320)) mod 1024).
  intros r q E L. f_equal; [lia|]. f_equal. lia.
Qed.

Lemma decode_encode (s e : jsstring) :
  code_units s ->
  encodeURIComponent s = Return e ->
  decodeURIComponent e = Return s.
Proof.
  assert (forall n s e, (length s <= n)%nat -> code_units s ->
            encodeURIComponent s = Return e -> decodeURIComponent e = Return s) as H;
    [|by apply (H (length s))].
  clear s e. induction n as [|n IH]; intros [|c rest] e Hlen Hs; cbn [length] in Hlen;
    try lia; cbn [encodeURIComponent]; intros H;
    try (injection H as <-; reflexivity).
  apply Forall_cons in Hs as [Hc Hrest].
  destruct (uriUnreserved c) eqn:Hu.
  - apply bind_Return in H as (r & Hr & H). injection H as <-.
    apply decode_literal; [by apply unreserved_not_percent|].
    apply (IH rest); [lia | done | done].
  - destruct (isLowSurrogate c) eqn:Hlow; [discriminate|].
    destruct (isHighSurrogate c) eqn:Hhigh.
    + destruct rest as [|k rest']; [discriminate|].
      destruct (isLowSurrogate k) eqn:Hk; [|discriminate].
      apply bind_Return in H as (r & Hr & H). injection H as <-.
      apply Forall_cons in Hrest as [_ Hrest']. cbn [length] in Hlen.
      destruct (surrogate_pair_value c k Hhigh Hk) as (Hv & Hns & Hu16).
      cbv zeta in Hv, Hns, Hu16.
      rewrite (decode_escaped _ r rest' Hv Hns); [by rewrite Hu16|].
      apply (IH rest'); [lia | done | done].
    + apply bind_Return in H as (r & Hr & H). injection H as <-.
      assert (~ 55296 <= c <= 57343) as Hns.
      { unfold isLowSurrogate, isHighSurrogate in *.
        apply andb_false_iff in Hlow, Hhigh.
        rewrite !N.leb_gt in Hlow, Hhigh. lia. }
      rewrite (decode_escaped c r rest); [|lia|done|].
      * unfold utf16. destruct (N.ltb_spec c 65536); [reflexivity | lia].
      * apply (IH rest); [lia | done | done].
Qed.

Lemma replace_plus_cons (r : jsstring) (c : N) (s : jsstring) :
  replace_plain plus r 0 (c :: s)
  = (if c =? 43 then r else [c]) ++ replace_plain plus r 0 s.
Proof.
  rewrite plus_eq. cbn [replace_plain starts_with length]. rewrite andb_true_r.
  rewrite (N.eqb_sym 43 c). destruct (c =? 43); reflexivity.
Qed.

Lemma replace_plus_app (r a b : jsstring) :
  replace_plain plus r 0 (a ++ b)
  = replace_plain plus r 0 a ++ replace_plain plus r 0 b.
Proof.
  induction a as [|c a IH]; [reflexivity|].
  cbn [app]. by rewrite !replace_plus_cons, IH, app_assoc.
Qed.

Lemma replace_plus_free (r a : jsstring) :
  43 ∉ a -> replace_plain plus r 0 a = a.
Proof.
  induction a as [|c a IH]; intros H; [reflexivity|].
  apply not_elem_of_cons in H as [Hc Ha]. rewrite replace_plus_cons, IH by done.
  destruct (N.eqb_spec c 43); [congruence | reflexivity].
Qed.

Lemma pct_no_plus (b : N) : 43 ∉ pct b.
Proof.
  unfold pct. pose proof (hexDigit_ge (b / 16)). pose proof (hexDigit_ge (b mod 16)).
  rewrite !not_elem_of_cons. repeat split; try lia. apply not_elem_of_nil.
Qed.

Lemma pctEncode_no_plus (v : N) : 43 ∉ pctEncode v.
Proof.
  unfold pctEncode. induction (utf8 v) as [|b os IH]; cbn [map concat].
  - apply not_elem_of_nil.
  - rewrite not_elem_of_app. split; [apply pct_no_plus | exact IH].
Qed.

Lemma pct20_no_dollar : 36 ∉ pct20.
Proof.
  rewrite pct20_eq, !not_elem_of_cons. repeat split; try lia. apply not_elem_of_nil.
Qed.

(** Writing [%20] for every [+] of the form encoding gives back what
    [encodeURIComponent] produced. *)
Lemma formEncode_unplus (s e : jsstring) :
  formEncode s = Return e ->
  encodeURIComponent s = Return (replace_plain plus pct20 0 e).
Proof.
  assert (forall n s e, (length s <= n)%nat -> formEncode s = Return e ->
            encodeURIComponent s = Return (replace_plain plus pct20 0 e)) as H;
    [|by apply (H (length s))].
  clear s e. induction n as [|n IH]; intros [|c rest] e Hlen; cbn [length] in Hlen;
    try lia; cbn [formEncode encodeURIComponent]; intros H;
    try (injection H as <-; reflexivity).
  destruct (uriUnreserved c) eqn:Hu.
  - apply bind_Return in H as (r & Hr & H). injection H as <-.
    rewrite (IH rest r) by (lia || done). cbn [bind]. rewrite replace_plus_cons.
    destruct (N.eqb_spec c 43) as [->|_]; [discriminate Hu | reflexivity].
  - destruct (isLowSurrogate c); [discriminate|].
    destruct (isHighSurrogate c).
    + destruct rest as [|k rest']; [discriminate|].
      destruct (isLowSurrogate k); [|discriminate].
      apply bind_Return in H as (r & Hr & H). injection H as <-.
      cbn [length] in Hlen. rewrite (IH rest' r) by (lia || done). cbn [bind].
      by rewrite replace_plus_app, (replace_plus_free _ _ (pctEncode_no_plus _)).
    + apply bind_Return in H as (r & Hr & H). injection H as <-.
      rewrite (IH rest r) by (lia || done). cbn [bind].
      rewrite replace_plus_app. unfold formUnit.
      destruct (N.eqb_spec c 32) as [->|_]; [reflexivity|].
      by rewrite (replace_plus_free _ _ (pctEncode_no_plus _)).
Qed.

Lemma formDecode_encodeText (text e : jsstring) :
  code_units text -> encodeText text = Return e -> formDecode e = Return text.
Proof.
  intros Hu H. rewrite encodeText_formEncode in H. unfold formDecode.
  rewrite String_replace_plain by apply pct20_no_dollar.
  apply decode_encode; [done|]. by apply formEncode_unplus.
Qed.

(** X1. The escaped text that [getSubmission] substitutes can be decoded: for
    every text made of code units, reading [+] as a space and decoding the
    percent-escapes gives the text back.  Two different texts therefore
    never have the same escaped text. *)
Theorem escaped_text_decodes (text e : jsstring) :
  code_units text ->
  encodeText text = Return e ->
  formDecode e = Return text
  /\ forall text', code_units text' -> encodeText text' = Return e -> text' = text.
Proof.
  intros Hu H. split; [by apply formDecode_encodeText|].
  intros text' Hu' H'.
  pose proof (formDecode_encodeText _ _ Hu H) as E.
  pose proof (formDecode_encodeText _ _ Hu' H') as E'.
  congruence.
Qed.

Lemma escaped_text_decodes_witness :
  code_units (str "a&b c")
  /\ encodeText (str "a&b c") = Return (str "a%26b+c")
  /\ formDecode (str "a%26b+c") = Return (str "a&b c").
Proof.
  assert (code_units (str "a&b c")) as Hu.
  { unfold code_units. repeat (apply Forall_cons_2; [vm_compute; reflexivity|]).
    apply Forall_nil_2. }
  assert (encodeText (str "a&b c") = Return (str "a%26b+c")) as H
    by (vm_compute; reflexivity).
  split; [exact Hu|]. split; [exact H|].
  exact (proj1 (escaped_text_decodes _ _ Hu H)).
Defined.

(** ** When [getSubmission] throws *)

Lemma unreserved_not_surrogate (c : N) :
  uriUnreserved c = true -> isLowSurrogate c = false /\ isHighSurrogate c = false.
Proof.
  unfold uriUnreserved, isAlpha, isDigit, isLowSurrogate, isHighSurrogate, uriMark.
  intros H. split; apply andb_false_iff; rewrite !N.leb_gt.
  - destruct (N.ltb_spec c 56320); [by left|]. exfalso.
    repeat (apply orb_true_iff in H as [H|H]);
      try (apply andb_true_iff in H as [H1 H2]; apply N.leb_le in H1, H2; lia).
    apply bool_decide_eq_true in H.
    repeat (apply elem_of_cons in H as [->|H]; [lia|]). by apply not_elem_of_nil in H.
  - destruct (N.ltb_spec c 55296); [by left|]. exfalso.
    repeat (apply orb_true_iff in H as [H|H]);
      try (apply andb_true_iff in H as [H1 H2]; apply N.leb_le in H1, H2; lia).
    apply bool_decide_eq_true in H.
    repeat (apply elem_of_cons in H as [->|H]; [lia|]). by apply not_elem_of_nil in H.
Qed.

Lemma encodeURIComponent_paired (s : jsstring) :
  if paired s then exists e, encodeURIComponent s = Return e
  else encodeURIComponent s = Throw URIError.
Proof.
  assert (forall n s, (length s <= n)%nat ->
            if paired s then exists e, encodeURIComponent s = Return e
            else encodeURIComponent s = Throw URIError) as H;
    [|by apply (H (length s))].
  clear s. induction n as [|n IH]; intros [|c rest] Hlen; cbn [length] in Hlen;
    try lia; cbn [paired encodeURIComponent]; eauto.
  destruct (uriUnreserved c) eqn:Hu.
  - destruct (unreserved_not_surrogate c Hu) as [-> ->].
    specialize (IH rest ltac:(lia)). destruct (paired rest).
    + destruct IH as [e ->]. cbn. eauto.
    + by rewrite IH.
  - destruct (isLowSurrogate c); [reflexivity|].
    destruct (isHighSurrogate c).
    + destruct rest as [|k rest']; [reflexivity|].
      destruct (isLowSurrogate k); [|reflexivity]. cbn [andb length] in *.
      specialize (IH rest' ltac:(lia)). destruct (paired rest').
      * destruct IH as [e ->]. cbn. eauto.
      * by rewrite IH.
    + specialize (IH rest ltac:(lia)). destruct (paired rest).
      * destruct IH as [e ->]. cbn. eauto.
      * by rewrite IH.
Qed.

(** X2. [getSubmission] throws in two cases only: a URIError exactly when the
    text has a surrogate without its partner, and otherwise the parser's
    NS_ERROR_MALFORMED_URI exactly when the substituted URL does not parse.
    The POST body never makes it throw. *)
Theorem getSubmission_throws_only (P : platform) (b : bookmark) (text : jsstring)
    (err : error) :
  getSubmission P b text = Throw err
  <-> (err = URIError /\ paired text = false)
      \/ (err = NS_ERROR_MALFORMED_URI /\ paired text = true
          /\ exists e, encodeText text = Return e
                       /\ newURI P (String_replace (url b) marker e) = None).
Proof.
  unfold getSubmission, encodeText. pose proof (encodeURIComponent_paired text) as Hp.
  destruct (paired text).
  - destruct Hp as [e0 ->]. cbn [bind]. split.
    + destruct (newURI P _) eqn:Hn; [discriminate|].
      intros H. injection H as <-. right. eauto.
    + intros [[_ H]|(-> & _ & e & He & Hn)]; [discriminate|].
      injection He as <-. by rewrite Hn.
  - rewrite Hp. cbn [bind]. split.
    + intros H. injection H as <-. by left.
    + intros [[-> _]|(_ & H & _)]; [reflexivity | discriminate].
Qed.

(** ** The alphabet of the escaped text *)

Lemma hexDigit_unreserved (n : N) : n < 16 -> uriUnreserved (hexDigit n) = true.
Proof.
  revert n. apply (every_nibble (fun n => uriUnreserved (hexDigit n))).
  vm_compute. reflexivity.
Qed.

Lemma pct_alphabet (b : N) :
  b < 256 -> Forall (fun c => uriUnreserved c = true \/ c = 37 \/ c = 43) (pct b).
Proof.
  intros Hb. unfold pct.
  assert (b / 16 < 16) as H1 by (apply N.Div0.div_lt_upper_bound; lia).
  assert (b mod 16 < 16) as H2 by (apply N.mod_lt; lia).
  repeat apply Forall_cons_2; try apply Forall_nil_2; auto using hexDigit_unreserved.
Qed.

Lemma pctEncode_alphabet (v : N) :
  v < 1114112 ->
  Forall (fun c => uriUnreserved c = true \/ c = 37 \/ c = 43) (pctEncode v).
Proof.
  intros Hv. unfold pctEncode. pose proof (utf8_octets v Hv) as H.
  induction H as [|b os Hb Hos IH]; cbn [map concat]; [constructor|].
  apply Forall_app. split; [by apply pct_alphabet | exact IH].
Qed.

Lemma formEncode_alphabet (s e : jsstring) :
  code_units s -> formEncode s = Return e ->
  Forall (fun c => uriUnreserved c = true \/ c = 37 \/ c = 43) e.
Proof.
  assert (forall n s e, (length s <= n)%nat -> code_units s ->
            formEncode s = Return e ->
            Forall (fun c => uriUnreserved c = true \/ c = 37 \/ c = 43) e) as H;
    [|by apply (H (length s))].
  clear s e. induction n as [|n IH]; intros [|c rest] e Hlen Hs; cbn [length] in Hlen;
    try lia; cbn [formEncode]; intros H;
    try (injection H as <-; constructor).
  apply Forall_cons in Hs as [Hc Hrest].
  destruct (uriUnreserved c) eqn:Hu.
  - apply bind_Return in H as (r & Hr & H). injection H as <-.
    apply Forall_cons_2; [by left|]. apply (IH rest); [lia | done | done].
  - destruct (isLowSurrogate c); [discriminate|].
    destruct (isHighSurrogate c) eqn:Hhigh.
    + destruct rest as [|k rest']; [discriminate|].
      destruct (isLowSurrogate k) eqn:Hk; [|discriminate].
      apply bind_Return in H as (r & Hr & H). injection H as <-.
      apply Forall_cons in Hrest as [_ Hrest']. cbn [length] in Hlen.
      destruct (surrogate_pair_value c k Hhigh Hk) as (Hv & _).
      apply Forall_app. split; [by apply pctEncode_alphabet|].
      apply (IH rest'); [lia | done | done].
    + apply bind_Return in H as (r & Hr & H). injection H as <-.
      apply Forall_app. split; [|apply (IH rest); [lia | done | done]].
      unfold formUnit. destruct (c =? 32).
      * rewrite plus_eq. apply Forall_cons_2; [auto | constructor].
      * apply pctEncode_alphabet. lia.
Qed.

(** X3. The escaped text is made of unreserved characters, [%] and [+]
    only.  Whatever the text, it therefore brings no space, quote, [#], [$],
    [&], [/], [<], [=], [>] or [?] into the URL or the POST body: it cannot
    end its parameter or start another one. *)
Theorem escaped_text_alphabet (text e : jsstring) :
  code_units text ->
  encodeText text = Return e ->
  Forall (fun c => uriUnreserved c = true \/ c = 37 \/ c = 43) e
  /\ forall c, c ∈ [32; 34; 35; 36; 38; 47; 60; 61; 62; 63] -> c ∉ e.
Proof.
  intros Hu H. rewrite encodeText_formEncode in H.
  pose proof (formEncode_alphabet _ _ Hu H) as Ha. split; [exact Ha|].
  intros c Hc Hin. rewrite Forall_forall in Ha. specialize (Ha c Hin).
  repeat (apply elem_of_cons in Hc as [->|Hc];
          [destruct Ha as [Ha|[Ha|Ha]]; discriminate|]).
  by apply not_elem_of_nil in Hc.
Qed.

Lemma escaped_text_alphabet_witness :
  code_units (str "a&b c")
  /\ encodeText (str "a&b c") = Return (str "a%26b+c")
  /\ Forall (fun c => uriUnreserved c = true \/ c = 37 \/ c = 43) (str "a%26b+c").
Proof.
  assert (code_units (str "a&b c")) as Hu.
  { unfold code_units. repeat (apply Forall_cons_2; [vm_compute; reflexivity|]).
    apply Forall_nil_2. }
  assert (encodeText (str "a&b c") = Return (str "a%26b+c")) as H
    by (vm_compute; reflexivity).
  split; [exact Hu|]. split; [exact H|].
  exact (proj1 (escaped_text_alphabet _ _ Hu H)).
Defined.

(** ** Stored POST data *)

Lemma unescape_marker (pre post : jsstring) :
  unescape (pre ++ marker ++ post) = Throw URIError.
Proof.
  rewrite marker_eq.
  assert (forall n pre, (length pre <= n)%nat ->
            unescape (pre ++ [37; 115] ++ post) = Throw URIError) as H;
    [|by apply (H (length pre))].
  clear pre. induction n as [|n IH]; intros [|c pre] Hlen; cbn [length] in Hlen;
    try lia.
  - cbn. destruct post; reflexivity.
  - cbn. destruct post; reflexivity.
  - cbn [app]. destruct (N.eqb_spec c 37) as [->|Hc].
    + destruct pre as [|h [|l pre']].
      * reflexivity.
      * cbn. destruct (hexValue h); reflexivity.
      * cbn [app unescape]. change (37 =? 37) with true. cbv iota.
        destruct (hexValue h); [|reflexivity]. destruct (hexValue l); [|reflexivity].
        cbn [length] in Hlen. change (pre' ++ 37 :: 115 :: post)
          with (pre' ++ [37; 115] ++ post).
        by rewrite IH by lia.
    + rewrite (unescape_lit _ _ Hc).
      change (pre ++ 37 :: 115 :: post) with (pre ++ [37; 115] ++ post).
      by rewrite IH by lia.
Qed.

Lemma decodeURIComponent_marker (s : jsstring) :
  occurs marker s -> decodeURIComponent s = Throw URIError.
Proof.
  intros (pre & post & ->). unfold decodeURIComponent. by rewrite unescape_marker.
Qed.

Lemma mapM_Throw {A B} (f : A -> result B) (l : list A) (a : A) (e : error) :
  a ∈ l -> f a = Throw e -> exists e', mapM f l = Throw e'.
Proof.
  intros Hin Hf. induction l as [|x l IH]; [by apply not_elem_of_nil in Hin|].
  cbn [mapM]. apply elem_of_cons in Hin as [<-|Hin].
  - rewrite Hf. cbn. eauto.
  - destruct (f x); cbn [bind]; [|eauto].
    destruct (IH Hin) as [e' ->]. cbn. eauto.
Qed.

(** X4.  A keyword whose stored POST data contains the two characters [%s]
    as they are (and not percent-encoded, as [%25s]) cannot be decoded:
    [keywordResultToBookmark] throws a URIError for it, whatever its URL, and
    the candidates of every tag that has its URI are lost as a whole. *)
Theorem bare_marker_in_postData_rejects (P : platform) (tag : jsstring)
    (u : nsIURI) (kr : KeywordRecord) (pd : jsstring) :
  u ∈ getURIsForTag P tag ->
  keywords_fetch P (spec u) = Return (Some kr) ->
  kr_postData kr = Some pd ->
  occurs marker pd ->
  keywordResultToBookmark P (Some kr) = Throw URIError
  /\ exists e, getCandidates P tag = Throw e.
Proof.
  intros Hu Hf Hpd Hm.
  assert (keywordResultToBookmark P (Some kr) = Throw URIError) as Hkr.
  { unfold keywordResultToBookmark, decodedPostData. rewrite Hpd.
    assert (truthy pd = true) as ->.
    { destruct Hm as (pre & post & ->). by destruct pre. }
    by rewrite decodeURIComponent_marker. }
  split; [exact Hkr|]. unfold getCandidates.
  destruct (getKeywordBookmarksForTag P tag) as [krs|e] eqn:Hk; cbn [bind]; [|eauto].
  unfold keywordResultsToBookmarks.
  assert (Some kr ∈ krs) as Hin.
  { unfold getKeywordBookmarksForTag in Hk. apply Promise_all_Return in Hk.
    assert (Return (Some kr)
            ∈ map (fun url => keywords_fetch P url) (map spec (getURIsForTag P tag)))
      as Hr.
    { rewrite <- Hf. apply list_elem_of_fmap. exists (spec u). split; [done|].
      apply list_elem_of_fmap. eauto. }
    rewrite Hk in Hr. apply list_elem_of_fmap in Hr as (x & E & Hx).
    by injection E as ->. }
  destruct (mapM_Throw (keywordResultToBookmark P) krs _ _ Hin Hkr) as [e' ->].
  cbn. eauto.
Qed.

Lemma bare_marker_in_postData_rejects_witness :
  Demo.uri_of Demo2.uRaw ∈ getURIsForTag Demo2.P (str "raw")
  /\ keywords_fetch Demo2.P (spec (Demo.uri_of Demo2.uRaw)) = Return (Some Demo2.kRaw)
  /\ kr_postData Demo2.kRaw = Some (str "q=%s")
  /\ occurs marker (str "q=%s")
  /\ keywordResultToBookmark Demo2.P (Some Demo2.kRaw) = Throw URIError.
Proof.
  assert (Demo.uri_of Demo2.uRaw ∈ getURIsForTag Demo2.P (str "raw")) as Hu.
  { change (getURIsForTag Demo2.P (str "raw"))
      with [Demo.uri_of Demo.uX; Demo.uri_of Demo2.uRaw].
    apply list_elem_of_further, list_elem_of_here. }
  assert (keywords_fetch Demo2.P (spec (Demo.uri_of Demo2.uRaw))
          = Return (Some Demo2.kRaw)) as Hf by (vm_compute; reflexivity).
  assert (kr_postData Demo2.kRaw = Some (str "q=%s")) as Hpd by reflexivity.
  assert (occurs marker (str "q=%s")) as Hm
    by (apply regex_test_occurs; vm_compute; reflexivity).
  split; [exact Hu|]. split; [exact Hf|]. split; [exact Hpd|]. split; [exact Hm|].
  exact (proj1 (bare_marker_in_postData_rejects Demo2.P (str "raw") _ _ _
                  Hu Hf Hpd Hm)).
Defined.

(** ** What a candidate holds *)

Lemma keywordResultToBookmark_description (P : platform)
    (keywordResult : option KeywordRecord) (b : bookmark) :
  keywordResultToBookmark P keywordResult = Return (Some b) ->
  description b
  = if itemHasAnnotation P (id b) then getItemAnnotation P (id b) else [].
Proof.
  unfold keywordResultToBookmark. destruct keywordResult as [kr|]; [|discriminate].
  intros H. apply bind_Return in H as (pd & Hpd & H).
  destruct (negb _); [discriminate|].
  destruct (newURI P (kr_url kr)) as [u|]; [|discriminate].
  destruct (if (0 <? length (getBookmarkIdsForURI P u))%nat then _ else _) as [i|];
    [|discriminate].
  destruct (i =? 0); [discriminate|]. by injection H as <-.
Qed.

Lemma head_filter_elem (f : N -> Prop) `{forall i, Decision (f i)} (l : list N) (i : N) :
  head (filter f l) = Some i -> i ∈ l /\ f i.
Proof.
  intros Hh. assert (i ∈ filter f l) as Hin.
  { destruct (filter f l) as [|x l']; [discriminate|]. injection Hh as ->.
    apply list_elem_of_here. }
  apply list_elem_of_filter in Hin as [Hf Hin]. done.
Qed.

(** X5.  Every candidate of a tag is attached to an actual bookmark of its
    own URL: the URL parses, the candidate's id is one of the ids the
    bookmarks service lists for it, has the item type bookmark and is not
    zero; its title is that item's title, its description that item's
    description annotation, or empty when there is none; and its [iconURL]
    is still empty. *)
Theorem candidate_is_bookmarked (P : platform) (tag : jsstring)
    (bookmarks : list bookmark) (b : bookmark) :
  getCandidates P tag = Return bookmarks ->
  b ∈ bookmarks ->
  exists u,
    newURI P (url b) = Some u
    /\ id b ∈ getBookmarkIdsForURI P u
    /\ getItemType P (id b) = TYPE_BOOKMARK
    /\ id b <> 0
    /\ title b = getItemTitle P (id b)
    /\ description b
       = (if itemHasAnnotation P (id b) then getItemAnnotation P (id b) else [])
    /\ iconURL b = [].
Proof.
  intros H Hb. unfold getCandidates in H. apply bind_Return in H as (krs & _ & H).
  destruct (keywordResultsToBookmarks_elem _ _ _ _ H Hb) as (kro & _ & Hkro).
  pose proof (keywordResultToBookmark_description _ _ _ Hkro) as Hd.
  apply keywordResultToBookmark_Some in Hkro
    as (kr & u & _ & _ & Eu & _ & _ & Hu & Hh & Hz & Ht & Hi).
  apply head_filter_elem in Hh as [Hin Hty].
  exists u. rewrite Eu. repeat split; auto.
Qed.

Lemma candidate_is_bookmarked_witness :
  getCandidates Demo.P (str "search") = Return [Demo.bX; Demo.bW; Demo.bP]
  /\ Demo.bW ∈ [Demo.bX; Demo.bW; Demo.bP]
  /\ exists u,
       newURI Demo.P (url Demo.bW) = Some u
       /\ id Demo.bW ∈ getBookmarkIdsForURI Demo.P u
       /\ getItemType Demo.P (id Demo.bW) = TYPE_BOOKMARK
       /\ id Demo.bW <> 0
       /\ title Demo.bW = getItemTitle Demo.P (id Demo.bW)
       /\ description Demo.bW
          = (if itemHasAnnotation Demo.P (id Demo.bW)
             then getItemAnnotation Demo.P (id Demo.bW) else [])
       /\ iconURL Demo.bW = [].
Proof.
  assert (getCandidates Demo.P (str "search") = Return [Demo.bX; Demo.bW; Demo.bP])
    as H by (vm_compute; reflexivity).
  assert (Demo.bW ∈ [Demo.bX; Demo.bW; Demo.bP]) as Hb
    by (apply list_elem_of_further, list_elem_of_here).
  split; [exact H|]. split; [exact Hb|].
  exact (candidate_is_bookmarked Demo.P (str "search") _ Demo.bW H Hb).
Defined.

(** ** The order of the candidates *)

Lemma keywordResultsToBookmarks_sublist (P : platform) (recs : list KeywordRecord)
    (bookmarks : list bookmark) :
  keywordResultsToBookmarks P (map Some recs) = Return bookmarks ->
  map url bookmarks `sublist_of` map kr_url recs.
Proof.
  revert bookmarks. induction recs as [|kr recs IH]; intros bs H.
  - injection H as <-. constructor.
  - cbn [map] in H. rewrite keywordResultsToBookmarks_cons in H.
    apply bind_Return in H as (ob & Hob & H).
    apply bind_Return in H as (bs' & Hbs' & H). injection H as <-.
    specialize (IH _ Hbs'). destruct ob as [b|].
    + apply keywordResultToBookmark_Some in Hob as (kr' & u & E & _ & Eu & _).
      injection E as <-. cbn [map]. rewrite Eu. by constructor.
    + cbn [map]. by constructor.
Qed.

Lemma all_records_present (P : platform) (krs : list (option KeywordRecord))
    (bookmarks : list bookmark) :
  keywordResultsToBookmarks P krs = Return bookmarks ->
  exists recs, krs = map Some recs.
Proof.
  intros H. induction krs as [|kr krs IH] in bookmarks, H |- *.
  - by exists [].
  - rewrite keywordResultsToBookmarks_cons in H.
    apply bind_Return in H as (ob & Hob & H).
    apply bind_Return in H as (bs' & Hbs' & H).
    destruct (IH _ Hbs') as [recs ->].
    destruct kr as [kr|]; [|discriminate]. by exists (kr :: recs).
Qed.

(** X6.  When the candidates of a tag resolve, every tagged URI had a
    keyword record; there is at most one candidate per tagged URI; and the
    candidates come in the order in which the tagging service lists the
    URIs: their URLs are a subsequence of the records' URLs. *)
Theorem candidates_follow_tagged_uris (P : platform) (tag : jsstring)
    (bookmarks : list bookmark) :
  getCandidates P tag = Return bookmarks ->
  exists recs,
    Forall2 (fun u kr => keywords_fetch P (spec u) = Return (Some kr))
      (getURIsForTag P tag) recs
    /\ map url bookmarks `sublist_of` map kr_url recs
    /\ (length bookmarks <= length (getURIsForTag P tag))%nat.
Proof.
  intros H. unfold getCandidates in H. apply bind_Return in H as (krs & Hk & H).
  destruct (all_records_present _ _ _ H) as [recs ->].
  pose proof (keywordResultsToBookmarks_sublist _ _ _ H) as Hs.
  unfold getKeywordBookmarksForTag in Hk. apply Promise_all_Return in Hk.
  assert (Forall2 (fun u kr => keywords_fetch P (spec u) = Return (Some kr))
            (getURIsForTag P tag) recs) as HF.
  { revert Hk. generalize (getURIsForTag P tag). clear.
    intros us. revert recs. induction us as [|u us IH]; intros [|kr recs] Hk;
      try discriminate; [constructor|].
    injection Hk as Hu Hk. constructor; auto. }
  exists recs. split; [exact HF|]. split; [exact Hs|].
  apply sublist_length in Hs. rewrite !length_map in Hs.
  apply Forall2_length in HF. lia.
Qed.

Lemma candidates_follow_tagged_uris_witness :
  getCandidates Demo.P (str "search") = Return [Demo.bX; Demo.bW; Demo.bP]
  /\ exists recs,
       Forall2 (fun u kr => keywords_fetch Demo.P (spec u) = Return (Some kr))
         (getURIsForTag Demo.P (str "search")) recs
       /\ map url [Demo.bX; Demo.bW; Demo.bP] `sublist_of` map kr_url recs
       /\ (length [Demo.bX; Demo.bW; Demo.bP]
           <= length (getURIsForTag Demo.P (str "search")))%nat.
Proof.
  assert (getCandidates Demo.P (str "search") = Return [Demo.bX; Demo.bW; Demo.bP])
    as H by (vm_compute; reflexivity).
  split; [exact H|].
  exact (candidates_follow_tagged_uris Demo.P (str "search") _ H).
Defined.

(** ** Allocation and enrichment in the store *)

Lemma alloc_objects_spec (bs : list bookmark) (h : heap) :
  let '(ls, h1) := alloc_objects bs h in
  arrays h1 = arrays h
  /\ NoDup ls
  /\ Forall (fun l => objects h !! l = None) ls
  /\ Forall2 (fun l b => objects h1 !! l = Some b) ls bs
  /\ (forall l, l ∉ ls -> objects h1 !! l = objects h !! l).
Proof.
  revert h. induction bs as [|b bs IH]; intros h.
  - cbn. repeat split; constructor.
  - cbn [alloc_objects]. unfold alloc_object.
    set (l := fresh (dom (objects h))).
    set (h0 := {| objects := <[l:=b]> (objects h); arrays := arrays h |}).
    specialize (IH h0). destruct (alloc_objects bs h0) as [ls h1].
    destruct IH as (Ha & Hnd & Hfresh & Hobj & Hothers).
    assert (objects h !! l = None) as Hl by apply not_elem_of_dom, is_fresh.
    assert (l ∉ ls) as Hnl.
    { intros Hin. rewrite Forall_forall in Hfresh. specialize (Hfresh l Hin).
      cbn in Hfresh. by rewrite lookup_insert_eq in Hfresh. }
    split; [exact Ha|]. split; [by constructor|]. split; [|split].
    + apply Forall_cons_2; [exact Hl|]. eapply Forall_impl; [exact Hfresh|].
      intros l' Hl'. cbn in Hl'. by apply lookup_insert_None in Hl' as [? _].
    + constructor; [|exact Hobj]. rewrite (Hothers l Hnl). cbn.
      apply lookup_insert_eq.
    + intros l' Hl'. apply not_elem_of_cons in Hl' as [Hne Hl'].
      rewrite (Hothers l' Hl'). cbn. by apply lookup_insert_ne.
Qed.

Lemma resolveBookmarkFavicon_frame (P : platform) (r : loc) (h : heap) :
  let '(v, h') := resolveBookmarkFavicon P r h in
  (v = VObj r \/ v = VStr (getDefaultFavicon P))
  /\ arrays h' = arrays h
  /\ (forall l, l <> r -> objects h' !! l = objects h !! l)
  /\ (forall l b', objects h' !! l = Some b' ->
        exists b, objects h !! l = Some b /\ b' = set_iconURL (iconURL b') b).
Proof.
  unfold resolveBookmarkFavicon.
  assert (forall b, b = set_iconURL (iconURL b) b) as Hid by (by intros []).
  assert (forall icon l b',
            alter (set_iconURL icon) r (objects h) !! l = Some b' ->
            exists b, objects h !! l = Some b /\ b' = set_iconURL (iconURL b') b)
    as Halter.
  { intros icon l b' H. destruct (decide (l = r)) as [->|Hne].
    - rewrite lookup_alter_eq in H. destruct (objects h !! r) as [b|]; [|discriminate].
      injection H as <-. exists b. split; [done|]. by destruct b.
    - rewrite lookup_alter_ne in H by done. eauto. }
  destruct (promiseFaviconData P (url_at h r)) as [d|e];
    [destruct (dataLen d =? 0)|]; cbn [Object_assign_iconURL objects arrays].
  - split; [by right|]. split; [done|]. split; [done|]. eauto.
  - split; [by left|]. split; [done|].
    split; [intros l Hl; by apply lookup_alter_ne | apply Halter].
  - split; [by left|]. split; [done|].
    split; [intros l Hl; by apply lookup_alter_ne | apply Halter].
Qed.

(** X7.  Enrichment keeps the candidates in place and touches nothing but
    icons: element [i] of the array it resolves with is the reference of
    candidate [i] (or, for a favicon of length zero, the default favicon's
    URL); no array of the store changes; objects that are not candidates
    are as before; and an object differs from what it was in its [iconURL]
    at most. *)
Theorem enrichment_touches_icons_only (P : platform) (bookmarks : list loc) (h : heap) :
  let '(vs, h') := resolveFavicons P bookmarks h in
  Forall2 (fun l v => v = VObj l \/ v = VStr (getDefaultFavicon P)) bookmarks vs
  /\ arrays h' = arrays h
  /\ (forall l, l ∉ bookmarks -> objects h' !! l = objects h !! l)
  /\ (forall l b', objects h' !! l = Some b' ->
        exists b, objects h !! l = Some b /\ b' = set_iconURL (iconURL b') b).
Proof.
  revert h. induction bookmarks as [|r rest IH]; intros h.
  - cbn. split; [constructor|]. split; [done|]. split; [done|].
    intros l b' H. exists b'. split; [done|]. by destruct b'.
  - cbn [resolveFavicons]. pose proof (resolveBookmarkFavicon_frame P r h) as H1.
    destruct (resolveBookmarkFavicon P r h) as [v h1].
    destruct H1 as (Hv & Ha1 & Ho1 & Hi1). specialize (IH h1).
    destruct (resolveFavicons P rest h1) as [vs h2].
    destruct IH as (Hvs & Ha2 & Ho2 & Hi2).
    split; [by constructor|]. split; [congruence|]. split.
    + intros l Hl. apply not_elem_of_cons in Hl as [Hne Hl].
      by rewrite (Ho2 l Hl), (Ho1 l Hne).
    + intros l b' Hb'. destruct (Hi2 l b' Hb') as (b1 & Hb1 & E1).
      destruct (Hi1 l b1 Hb1) as (b & Hb & E). exists b. split; [done|].
      rewrite E1, E. by destruct b.
Qed.

Lemma enrichment_frame (P : platform) (ls : list loc) (h : heap) :
  let '(vs, h') := resolveFavicons P ls h in
  arrays h' = arrays h
  /\ (forall l, l ∉ ls -> objects h' !! l = objects h !! l).
Proof.
  revert h. induction ls as [|r rest IH]; intros h; [done|].
  cbn [resolveFavicons]. pose proof (resolveBookmarkFavicon_frame P r h) as H1.
  destruct (resolveBookmarkFavicon P r h) as [v h1].
  destruct H1 as (_ & Ha1 & Ho1 & _). specialize (IH h1).
  destruct (resolveFavicons P rest h1) as [vs h2]. destruct IH as (Ha2 & Ho2).
  split; [congruence|]. intros l Hl. apply not_elem_of_cons in Hl as [Hne Hl].
  by rewrite (Ho2 l Hl), (Ho1 l Hne).
Qed.



(** ** The chain as a whole *)




(** X9.  Whatever the chain does, and whether it resolves or rejects, every
    bookmark object and every array that the store held before is as it
    was: the chain works on objects and arrays of its own making. *)
Theorem chain_leaves_store_alone (P : platform) (tag : jsstring) (h : heap) :
  let h' := (keywordBookmarks P tag h).2 in
  (forall l, l ∈ dom (objects h) -> objects h' !! l = objects h !! l)
  /\ (forall a, a ∈ dom (arrays h) -> arrays h' !! a = arrays h !! a).
Proof.
  cbv zeta. unfold keywordBookmarks.
  destruct (getCandidates P tag) as [bs|e]; [|done].
  pose proof (alloc_objects_spec bs h) as H1.
  destruct (alloc_objects bs h) as [ls h1].
  destruct H1 as (Ha1 & _ & Hfresh & _ & Hoth1).
  unfold promiseAllBookmarksWithFavicons.
  pose proof (enrichment_frame P ls h1) as H2.
  destruct (resolveFavicons P ls h1) as [vs h2]. destruct H2 as (Ha2 & Ho2).
  unfold alloc_array. set (a := fresh (dom (arrays h2))).
  assert (forall l, l ∈ dom (objects h) -> l ∉ ls) as Hold.
  { intros l Hl Hin. rewrite Forall_forall in Hfresh.
    apply elem_of_dom in Hl as [b Hb]. specialize (Hfresh l Hin). congruence. }
  assert (a ∉ dom (arrays h)) as Hafresh.
  { rewrite <- Ha1, <- Ha2. apply is_fresh. }
  unfold sortBookmarksByTitle. cbn [arrays objects]. rewrite lookup_insert_eq.
  destruct (Array_sort _ vs) as [sorted|e]; cbn [snd objects arrays].
  - split.
    + intros l Hl. by rewrite (Ho2 l (Hold l Hl)), (Hoth1 l (Hold l Hl)).
    + intros a' Ha'. rewrite !lookup_insert_ne by (intros ->; done). congruence.
  - split.
    + intros l Hl. by rewrite (Ho2 l (Hold l Hl)), (Hoth1 l (Hold l Hl)).
    + intros a' Ha'. rewrite lookup_insert_ne by (intros ->; done). congruence.
Qed.

(** ** Sorting again *)

Lemma insert_pure_head {A} (cmp : A -> A -> Z) (x : A) (l : list A) :
  Forall (comes_before cmp x) l -> insert_pure cmp x l = x :: l.
Proof.
  intros H. destruct H as [|y l Hy _]; [reflexivity|]. cbn [insert_pure].
  unfold comes_before in Hy. destruct (Z.ltb_spec 0 (cmp x y)); [lia | reflexivity].
Qed.

Lemma sort_pure_fixed {A} (cmp : A -> A -> Z) (l : list A) :
  StronglySorted (comes_before cmp) l -> sort_pure cmp l = l.
Proof.
  induction 1 as [|x l Hl IH Hx]; [reflexivity|].
  cbn [sort_pure]. rewrite IH. by apply insert_pure_head.
Qed.

(** X10.  Sorting is idempotent: on an array of bookmark objects that
    [sortBookmarksByTitle] has already sorted, a second call changes
    nothing in the store and returns the same reference. *)
Theorem sorting_again_changes_nothing (P : platform) (h : heap) (a : loc)
    (vs : list value) :
  consistent (localeCompare P) ->
  arrays h !! a = Some vs ->
  Forall (is_bookmark h) vs ->
  let h1 := (sortBookmarksByTitle P a h).2 in
  sortBookmarksByTitle P a h1 = (Return a, h1).
Proof.
  intros [Hrefl Htotal Htrans] Ha Hvs. cbv zeta.
  rewrite (sortBookmarksByTitle_bookmarks P h a vs Ha Hvs). cbn [snd].
  set (sorted := sort_pure (compare_at P h) vs).
  set (h1 := {| objects := objects h; arrays := <[a:=sorted]> (arrays h) |}).
  assert (Forall (is_bookmark h1) sorted) as Hb.
  { change (Forall (is_bookmark h) sorted). unfold sorted.
    by rewrite <- (sort_pure_perm (compare_at P h) vs). }
  rewrite (sortBookmarksByTitle_bookmarks P h1 a sorted);
    [|apply lookup_insert_eq | exact Hb].
  change (compare_at P h1) with (compare_at P h).
  rewrite (sort_pure_fixed (compare_at P h) sorted).
  - unfold h1. cbn [objects arrays]. by rewrite insert_insert_eq.
  - apply sort_pure_sorted.
    + intros x y. apply Htotal.
    + intros x y z. apply Htrans.
Qed.

Lemma sorting_again_changes_nothing_witness :
  consistent (localeCompare Demo.P)
  /\ arrays Demo.store !! 1%positive
     = Some [VObj 1%positive; VObj 2%positive; VObj 3%positive]
  /\ Forall (is_bookmark Demo.store)
       [VObj 1%positive; VObj 2%positive; VObj 3%positive]
  /\ (let h1 := (sortBookmarksByTitle Demo.P 1%positive Demo.store).2 in
      sortBookmarksByTitle Demo.P 1%positive h1 = (Return 1%positive, h1)).
Proof.
  assert (consistent (localeCompare Demo.P)) as Hc by exact collate_consistent.
  assert (arrays Demo.store !! 1%positive
          = Some [VObj 1%positive; VObj 2%positive; VObj 3%positive]) as Ha
    by (vm_compute; reflexivity).
  assert (Forall (is_bookmark Demo.store)
            [VObj 1%positive; VObj 2%positive; VObj 3%positive]) as Hvs.
  { repeat apply Forall_cons_2; try apply Forall_nil_2.
    - exists 1%positive, Demo.bX. split; [reflexivity | vm_compute; reflexivity].
    - exists 2%positive, Demo.bW. split; [reflexivity | vm_compute; reflexivity].
    - exists 3%positive, Demo.bP. split; [reflexivity | vm_compute; reflexivity]. }
  split; [exact Hc|]. split; [exact Ha|]. split; [exact Hvs|].
  exact (sorting_again_changes_nothing Demo.P Demo.store 1%positive _ Hc Ha Hvs).
Defined.

(* ===================================================================== *)
(** ** The two event handlers and the menu *)
(* ===================================================================== *)

Lemma fold_left_addKeywordBookmarkMenuitem h text bookmarks popup :
  fold_left (fun popup bookmark => addKeywordBookmarkMenuitem h bookmark text popup)
    bookmarks popup
  = popup ++ map (keyword_menuitem h text) bookmarks.
Proof.
  revert popup; induction bookmarks as [|b bs IH]; intros popup; simpl.
  - by rewrite app_nil_r.
  - rewrite IH. unfold addKeywordBookmarkMenuitem. by rewrite <- app_assoc.
Qed.

Lemma addKeywordBookmarksMenuitems_closed h bookmarks sep text popup :
  addKeywordBookmarksMenuitems h bookmarks sep text popup
  = popup ++ match bookmarks with
             | [] => []
             | _ => (if sep then [Menuseparator] else [])
                      ++ map (keyword_menuitem h text) bookmarks
             end.
Proof.
  unfold addKeywordBookmarksMenuitems. destruct bookmarks as [|b bs].
  - simpl. by rewrite app_nil_r.
  - cbn [length Nat.eqb]. rewrite fold_left_addKeywordBookmarkMenuitem.
    destruct sep; by rewrite <- ?app_assoc.
Qed.

Lemma onMenuClicked_mru P C h event mru :
  match (onMenuClicked P C h event mru).1 with
  | Return (LinkOpened l) | Return (LinkFailed l) =>
      (onMenuClicked P C h event mru).2
      = match target_engine event with Some e => Some e | None => mru end
  | _ => (onMenuClicked P C h event mru).2 = mru
  end.
Proof.
  unfold onMenuClicked.
  destruct (whereToOpenLink C event) as [[w bg]|]; [|done].
  destruct (view event) as [[|]|]; cbn [negb]; [|done..].
  destruct (match target_engine event with Some e => Some e | None => mru end)
    as [e|] eqn:He; [|done].
  destruct (truthy (or_empty (target_searchtext event))); cbn [negb]; [|done].
  destruct (engine_submit P C h e _) as [[s|]|err]; [|done..].
  destruct (truthy (spec (uri s))); cbn [negb]; [|done].
  by destruct (openLinkIn_throws C _).
Qed.

Lemma onPopupShown_mru C tag w mru cm hid menu pop engines :
  gContextMenu w = Some cm -> searchSelect w = Some hid ->
  mcsMenu w = Some menu -> mcsPopup w = Some pop ->
  getVisibleEngines C = Some engines ->
  (onPopupShown C tag (Some w) mru).2.2
  = match mru with
    | Some (SearchEngine e) =>
        if bool_decide (e ∈ engines) then Some (SearchEngine e)
        else SearchEngine <$> defaultEngine C
    | _ => SearchEngine <$> defaultEngine C
    end.
Proof.
  intros Hcm Hss Hm Hp He. unfold onPopupShown. rewrite Hcm, Hss, Hm, Hp, He.
  cbv zeta.
  set (mru1 := match mru with Some e => Some e | None => SearchEngine <$> defaultEngine C end).
  set (mru2 := if not_visible engines mru1 then SearchEngine <$> defaultEngine C else mru1).
  assert (Hmru2 : mru2 = match mru with
    | Some (SearchEngine e) =>
        if bool_decide (e ∈ engines) then Some (SearchEngine e)
        else SearchEngine <$> defaultEngine C
    | _ => SearchEngine <$> defaultEngine C
    end).
  { subst mru2 mru1. destruct mru as [[e|u p d b]|]; cbn [not_visible].
    - by destruct (bool_decide (e ∈ engines)).
    - done.
    - destruct (defaultEngine C) as [e|]; cbn; [|done].
      by destruct (bool_decide (e ∈ engines)). }
  rewrite <- Hmru2.
  destruct mru2 as [m|]; [|done].
  destruct (truthy (or_empty (name_of C m))); cbn [negb]; [|done].
  destruct (isTextSelected cm || isContentSelected cm
            || (0 <? length (textSelected cm))%nat); cbn [negb]; [|done].
  destruct (truthy (textSelected cm)); cbn [negb]; [|done].
  destruct (bundle_browser w); by destruct (truthy tag).
Qed.

(** X11 (MCS.onPopupShown).  When the window has its context menu and the
    three elements and the search service lists its visible engines, the most
    recently used engine after the handler is the previous one if that is one
    of the visible engines, and the default engine of the search service in
    every other case; it is never the object built for a keyword bookmark. *)
Theorem popup_shown_sets_mru_engine C tag w mru cm hid menu pop engines :
  gContextMenu w = Some cm -> searchSelect w = Some hid ->
  mcsMenu w = Some menu -> mcsPopup w = Some pop ->
  getVisibleEngines C = Some engines ->
  let mru' := (onPopupShown C tag (Some w) mru).2.2 in
  mru' = match mru with
         | Some (SearchEngine e) =>
             if bool_decide (e ∈ engines) then Some (SearchEngine e)
             else SearchEngine <$> defaultEngine C
         | _ => SearchEngine <$> defaultEngine C
         end
  /\ (forall e, mru' = Some e ->
        exists r, e = SearchEngine r /\ (r ∈ engines \/ defaultEngine C = Some r)).
Proof.
  intros Hcm Hss Hm Hp He mru'. subst mru'.
  rewrite (onPopupShown_mru C tag w mru cm hid menu pop engines) by done.
  split; [done|]. intros e.
  assert (Hd : SearchEngine <$> defaultEngine C = Some e ->
               exists r, e = SearchEngine r /\ (r ∈ engines \/ defaultEngine C = Some r)).
  { destruct (defaultEngine C) as [r|]; cbn; [|done].
    intros [= <-]. exists r. by split; [|right]. }
  destruct mru as [[r|u p d b]|]; try done.
  destruct (bool_decide (r ∈ engines)) eqn:Hr; [|done].
  intros [= <-]. exists r. apply bool_decide_eq_true in Hr. by split; [|left].
Qed.

Lemma popup_shown_sets_mru_engine_witness :
  (onPopupShown DemoUI.C (str "search") (Some DemoUI.window) (Some (SearchEngine 2))).2.2
    = Some (SearchEngine 2)
  /\ (onPopupShown DemoUI.C (str "search") (Some DemoUI.window) (Some (SearchEngine 7))).2.2
    = Some (SearchEngine 1).
Proof.
  split.
  - exact (proj1 (popup_shown_sets_mru_engine DemoUI.C (str "search") DemoUI.window
                    (Some (SearchEngine 2)) _ _ _ _ _
                    eq_refl eq_refl eq_refl eq_refl eq_refl)).
  - exact (proj1 (popup_shown_sets_mru_engine DemoUI.C (str "search") DemoUI.window
                    (Some (SearchEngine 7)) _ _ _ _ _
                    eq_refl eq_refl eq_refl eq_refl eq_refl)).
Defined.

(** X12 (MCS.onMenuClicked, then MCS.onPopupShown).  A click on the menu item
    of a keyword bookmark that gets as far as [openLinkIn] records the
    bookmark's engine object as the most recently used engine, and the next
    time the context menu is shown (the elements being there and the engines
    listed) the handler replaces it by the default engine of the search
    service: a keyword bookmark never becomes the engine of the menu's own
    label. *)
Theorem keyword_engine_not_remembered P C h event mru tag w cm hid menu pop engines
    u p d b :
  target_engine event = Some (KeywordEngine u p d b) ->
  (exists l, (onMenuClicked P C h event mru).1 = Return (LinkOpened l)
             \/ (onMenuClicked P C h event mru).1 = Return (LinkFailed l)) ->
  gContextMenu w = Some cm -> searchSelect w = Some hid ->
  mcsMenu w = Some menu -> mcsPopup w = Some pop ->
  getVisibleEngines C = Some engines ->
  (onMenuClicked P C h event mru).2 = Some (KeywordEngine u p d b)
  /\ (onPopupShown C tag (Some w) (onMenuClicked P C h event mru).2).2.2
     = SearchEngine <$> defaultEngine C.
Proof.
  intros Ht [l Hl] Hcm Hss Hm Hp He.
  pose proof (onMenuClicked_mru P C h event mru) as Hmru.
  assert (Hk : (onMenuClicked P C h event mru).2 = Some (KeywordEngine u p d b)).
  { destruct Hl as [Hl|Hl]; rewrite Hl, Ht in Hmru; exact Hmru. }
  split; [done|].
  rewrite (onPopupShown_mru C tag w _ cm hid menu pop engines) by done.
  by rewrite Hk.
Qed.

Lemma keyword_engine_not_remembered_witness :
  (onMenuClicked Demo.P DemoUI.C Demo.store DemoUI.click None).2 = Some DemoUI.kX
  /\ (onPopupShown DemoUI.C (str "search") (Some DemoUI.window)
        (onMenuClicked Demo.P DemoUI.C Demo.store DemoUI.click None).2).2.2
     = Some (SearchEngine 1).
Proof.
  refine (keyword_engine_not_remembered Demo.P DemoUI.C Demo.store DemoUI.click None
           (str "search") DemoUI.window _ _ _ _ _ _ _ _ _
           eq_refl _ eq_refl eq_refl eq_refl eq_refl eq_refl).
  eexists. left. vm_compute. reflexivity.
Defined.

(** X13 (MCS.onPopupShown).  With the elements there and the engines listed,
    the popup is rebuilt from nothing: afterwards its children are either
    none or exactly one item per visible engine, in the order of the search
    service, each carrying the selected text, whatever the popup held before;
    and if the chain for the keyword bookmarks is started, it is with a
    non-empty tag, the selected text, which is non-empty and is also the
    menu's [searchtext], a separator exactly when there is an engine, and the
    engines' items in the popup. *)
Theorem popup_rebuilt_from_engines C tag w mru cm hid menu pop engines :
  gContextMenu w = Some cm -> searchSelect w = Some hid ->
  mcsMenu w = Some menu -> mcsPopup w = Some pop ->
  getVisibleEngines C = Some engines ->
  exists w',
    (onPopupShown C tag (Some w) mru).2.1 = Some w'
    /\ (mcsPopup w' = Some []
        \/ mcsPopup w' = Some (map (engine_menuitem C (textSelected cm)) engines))
    /\ searchSelect w' <> Some None /\ searchSelect w' <> None
    /\ forall t s sep,
         (onPopupShown C tag (Some w) mru).1 = Return (ChainStarted t s sep) ->
         t = tag /\ truthy tag = true
         /\ s = textSelected cm /\ truthy s = true
         /\ sep = negb (bool_decide (engines = []))
         /\ mcsPopup w' = Some (map (engine_menuitem C s) engines)
         /\ (exists m, mcsMenu w' = Some m /\ menu_searchtext m = Some s
                       /\ menu_hidden m = Some (str "false")).
Proof.
  intros Hcm Hss Hm Hp He. unfold onPopupShown. rewrite Hcm, Hss, Hm, Hp, He.
  cbv zeta.
  set (mru1 := match mru with Some e => Some e | None => SearchEngine <$> defaultEngine C end).
  destruct (if not_visible engines mru1 then SearchEngine <$> defaultEngine C else mru1)
    as [m|]; [|eexists; cbn; split; [done|]; split; [by left|]; done].
  destruct (truthy (or_empty (name_of C m))); cbn [negb];
    [|eexists; cbn; split; [done|]; split; [by left|]; done].
  destruct (isTextSelected cm || isContentSelected cm
            || (0 <? length (textSelected cm))%nat) eqn:Hsel; cbn [negb];
    [|eexists; cbn; split; [done|]; split; [by left|]; done].
  destruct (truthy (textSelected cm)) eqn:Htxt; cbn [negb];
    [|eexists; cbn; split; [done|]; split; [by left|]; done].
  destruct (bundle_browser w) as [bundle|]; destruct (truthy tag) eqn:Htag; cbn [negb];
    (eexists; cbn; split; [done|]; split; [by right|]; split; [done|]; split; [done|]);
    intros t s sep [=]; subst;
    (repeat (split; [done|])); try done.
  all: split; [by destruct engines|].
  all: split; [done|]; eexists; cbn; done.
Qed.

Lemma popup_rebuilt_from_engines_witness :
  exists w',
    (onPopupShown DemoUI.C (str "search") (Some DemoUI.window) (Some DemoUI.kX)).2.1
      = Some w'
    /\ mcsPopup w' = Some (map (engine_menuitem DemoUI.C (str "hello")) [1; 2]).
Proof.
  destruct (popup_rebuilt_from_engines DemoUI.C (str "search") DemoUI.window
              (Some DemoUI.kX) _ _ _ _ _ eq_refl eq_refl eq_refl eq_refl eq_refl)
    as (w' & Hw & _ & _ & _ & Hchain).
  exists w'. split; [exact Hw|].
  exact (proj1 (proj2 (proj2 (proj2 (proj2 (proj2
    (Hchain (str "search") (str "hello") true eq_refl))))))).
Defined.

(** X14 (MCS.onPopupShown).  When the search service has no list of visible
    engines, the handler does not go on with the default engine, as its
    comment says: it throws a TypeError, after it has hidden
    [#context-searchselect], emptied the popup and, if no engine was
    remembered, taken the default engine as the most recent one; the menu
    keeps the label it had and gets no item. *)
Theorem popup_shown_without_engines_throws C tag w mru cm hid menu pop :
  gContextMenu w = Some cm -> searchSelect w = Some hid ->
  mcsMenu w = Some menu -> mcsPopup w = Some pop ->
  getVisibleEngines C = None ->
  exists w',
    onPopupShown C tag (Some w) mru
    = (Throw TypeError,
       (Some w', match mru with
                 | Some e => Some e
                 | None => SearchEngine <$> defaultEngine C
                 end))
    /\ mcsPopup w' = Some []
    /\ (exists v, searchSelect w' = Some (Some v) /\ truthy v = true)
    /\ (exists m, mcsMenu w' = Some m /\ menu_label m = menu_label menu
                  /\ menu_searchtext m = menu_searchtext menu).
Proof.
  intros Hcm Hss Hm Hp He. unfold onPopupShown. rewrite Hcm, Hss, Hm, Hp, He.
  cbv zeta. eexists. split; [reflexivity|]. cbn.
  split; [done|]. split.
  - eexists. split; [reflexivity|].
    by destruct (truthy (or_empty hid)) eqn:Hh.
  - eexists. by split.
Qed.

Lemma popup_shown_without_engines_throws_witness :
  (onPopupShown DemoUI.C_null (str "search") (Some DemoUI.window) None).1
  = Throw TypeError.
Proof.
  destruct (popup_shown_without_engines_throws DemoUI.C_null (str "search")
              DemoUI.window None _ _ _ _ eq_refl eq_refl eq_refl eq_refl eq_refl)
    as (w' & Hw & _).
  exact (f_equal fst Hw).
Defined.

(** X15 (MCS.addKeywordBookmarksMenuitems, MCS.addKeywordBookmarkMenuitem and
    the end of the chain in MCS.onPopupShown).  The end of the chain only
    appends to the popup, whatever the popup holds by then: nothing, not even
    the separator, when the chain is rejected or resolves with an empty
    array; otherwise the separator if asked for, then one item per element of
    the array, in the array's order, each with the given search text. *)
Theorem keyword_items_are_appended P tag text sep h popup :
  let '(popup', h') := keywordBookmarks_then P tag text sep h popup in
  (keywordBookmarks P tag h).2 = h'
  /\ match (keywordBookmarks P tag h).1 with
     | Throw _ => popup' = popup
     | Return a =>
         match default [] (arrays h' !! a) with
         | [] => popup' = popup
         | bookmarks =>
             popup' = popup ++ (if sep then [Menuseparator] else [])
                        ++ map (keyword_menuitem h' text) bookmarks
         end
     end.
Proof.
  unfold keywordBookmarks_then.
  destruct (keywordBookmarks P tag h) as [[a|err] h']; cbn [fst snd]; [|done].
  split; [done|]. rewrite addKeywordBookmarksMenuitems_closed.
  destruct (default [] (arrays h' !! a)); [by rewrite app_nil_r|done].
Qed.

(** X16 (the chain of MCS.onPopupShown, MCS.addKeywordBookmarkMenuitem,
    MCS.onMenuClicked).  When the tag has a single candidate and its favicon
    comes back with no data, the chain resolves (one element is sorted
    without a comparison) and the popup gets an item labelled "undefined",
    with the image "undefined" and no tooltip, where the bookmark's item
    should be.  A click on that item never reaches [openLinkIn], and the
    most recently used engine stays as it was. *)
Theorem lone_candidate_without_icon_listed_as_undefined P tag text sep h popup b d :
  getCandidates P tag = Return [b] ->
  promiseFaviconData P (url b) = Return d ->
  dataLen d = 0 ->
  let eng := KeywordEngine None None None (VStr (getDefaultFavicon P)) in
  (keywordBookmarks_then P tag text sep h popup).1
  = popup ++ (if sep then [Menuseparator] else [])
      ++ [Menuitem {| label := str "undefined"; class_ := str "menuitem-iconic";
                      image := str "undefined"; searchtext := text;
                      tooltiptext := []; item_engine := eng |}]
  /\ forall C h' event mru,
       target_engine event = Some eng ->
       (onMenuClicked P C h' event mru).2 = mru
       /\ forall l, (onMenuClicked P C h' event mru).1 <> Return (LinkOpened l)
                    /\ (onMenuClicked P C h' event mru).1 <> Return (LinkFailed l).
Proof.
  intros Hc Hd Hlen eng. split.
  - unfold keywordBookmarks_then, keywordBookmarks. rewrite Hc.
    cbn [alloc_objects alloc_object].
    unfold promiseAllBookmarksWithFavicons. cbn [resolveFavicons].
    unfold resolveBookmarkFavicon, url_at. cbn [objects].
    rewrite lookup_insert_eq, Hd, Hlen. cbn [N.eqb].
    unfold alloc_array, sortBookmarksByTitle. cbn [arrays objects].
    rewrite lookup_insert_eq.
    cbn [Array_sort insert_sorted bind fst snd arrays objects].
    rewrite lookup_insert_eq. cbn [default].
    by rewrite addKeywordBookmarksMenuitems_closed.
  - intros C h' event mru Ht. unfold onMenuClicked. rewrite Ht.
    destruct (whereToOpenLink C event) as [[w bg]|]; [|done].
    destruct (view event) as [[|]|]; cbn [negb]; [|done..].
    destruct (truthy (or_empty (target_searchtext event))); cbn [negb]; [|done].
    unfold eng, engine_submit. cbn [deref].
    by destruct (encodeText _).
Qed.

Lemma lone_candidate_without_icon_listed_as_undefined_witness :
  label <$> (match (keywordBookmarks_then Demo2.P (str "lone") (str "hi") false
                      empty_heap []).1 with
             | [Menuitem m] => Some m
             | _ => None
             end)
  = Some (str "undefined").
Proof.
  rewrite (proj1 (lone_candidate_without_icon_listed_as_undefined Demo2.P (str "lone")
                    (str "hi") false empty_heap [] Demo.bW Demo.no_octets
                    eq_refl eq_refl eq_refl)).
  reflexivity.
Defined.

Lemma high_not_low (c : N) : isHighSurrogate c = true -> isLowSurrogate c = false.
Proof.
  unfold isHighSurrogate, isLowSurrogate. intros [_ H]%andb_true_iff.
  apply N.leb_le in H. apply andb_false_iff. left. apply N.leb_gt. lia.
Qed.

Lemma paired_app_high (n : nat) : forall (s : jsstring) (c : N) (e : jsstring),
  (length s <= n)%nat ->
  paired s = true -> isHighSurrogate c = true ->
  match e with [] => True | k :: _ => isLowSurrogate k = false end ->
  paired (s ++ c :: e) = false.
Proof.
  induction n as [|n IH]; intros s c e Hn Hs Hc He.
  - destruct s; [|simpl in Hn; lia]. cbn [app paired].
    rewrite (high_not_low c Hc), Hc. destruct e as [|k e']; [done|]. by rewrite He.
  - destruct s as [|x s'].
    + cbn [app paired].
      rewrite (high_not_low c Hc), Hc. destruct e as [|k e']; [done|]. by rewrite He.
    + cbn [app paired] in *. destruct (isLowSurrogate x); [done|].
      destruct (isHighSurrogate x).
      * destruct s' as [|k s'']; [done|]. cbn [app].
        apply andb_true_iff in Hs as [Hk Hs]. rewrite Hk. cbn [andb].
        apply IH; [simpl in Hn; lia|done..].
      * apply IH; [simpl in Hn; lia|done..].
Qed.

Lemma paired_take (m : nat) : forall (text : jsstring) (n : nat) (c : N),
  (length text <= m)%nat ->
  paired text = true -> text !! n = Some c -> isHighSurrogate c = true ->
  paired (take n text) = true.
Proof.
  induction m as [|m IH]; intros text n c Hm Ht Hn Hc.
  - destruct text; [done|simpl in Hm; lia].
  - destruct text as [|x t]; [done|]. destruct n as [|n]; [done|].
    cbn [take paired] in *. destruct (isLowSurrogate x); [done|].
    destruct (isHighSurrogate x).
    + destruct t as [|k t']; [done|]. apply andb_true_iff in Ht as [Hk Ht].
      destruct n as [|n].
      * cbn in Hn. injection Hn as ->. by rewrite (high_not_low c Hc) in Hk.
      * cbn [take]. rewrite Hk. cbn [andb].
        apply (IH t' n c); [simpl in Hm; lia|done..].
    + apply (IH t n c); [simpl in Hm; lia|done..].
Qed.

(** X17 (MCS.onPopupShown, the preview of the selected text).  The preview
    starts with the same 15 code units as the selected text and is at most
    the ellipsis longer than that.  The cut is made between code units: when a
    surrogate pair of a well-formed text lies across it, the preview, and so
    the label of the menu, holds a lone surrogate (unless the ellipsis itself
    began with a low surrogate, which the built-in one does not). *)
Theorem preview_cuts_at_code_units (text : jsstring) (ellipsis : option jsstring) :
  take maxPreviewLength (previewText text ellipsis) = take maxPreviewLength text
  /\ (length (previewText text ellipsis)
      <= maxPreviewLength + length (ellipsisOf ellipsis))%nat
  /\ (forall c,
        paired text = true ->
        text !! 14%nat = Some c -> isHighSurrogate c = true ->
        match ellipsisOf ellipsis with
        | k :: _ => isLowSurrogate k = false
        | [] => True
        end ->
        paired (previewText text ellipsis) = false).
Proof.
  unfold previewText.
  destruct (Nat.ltb_spec maxPreviewLength (length text)) as [Hlt|Hle].
  - split; [|split].
    + rewrite take_app_le by (rewrite length_take; lia).
      by rewrite take_take, Nat.min_id.
    + rewrite length_app, length_take. lia.
    + intros c Hp Hc Hhigh Hk.
      assert (Hsplit : take maxPreviewLength text = take 14 text ++ [c]).
      { change maxPreviewLength with (S 14). by rewrite (take_S_r _ _ c). }
      rewrite Hsplit, <- app_assoc. cbn [app].
      apply (paired_app_high 14); [rewrite length_take; lia| |done..].
      by apply (paired_take (length text) text 14 c).
  - split; [|split].
    + done.
    + unfold maxPreviewLength in *. lia.
    + intros c Hp Hc Hhigh _. exfalso.
      assert (Htext : text = take 14 text ++ [c]).
      { rewrite <- (take_S_r _ _ c) by done. symmetry. apply take_ge.
        unfold maxPreviewLength in Hle. lia. }
      assert (Hfalse : paired (take 14 text ++ [c]) = false).
      { apply (paired_app_high 14); [rewrite length_take; lia| |done..].
        by apply (paired_take (length text) text 14 c). }
      rewrite <- Htext in Hfalse. congruence.
Qed.

Lemma preview_cuts_at_code_units_witness :
  paired (previewText (str "0123456789abcd" ++ [55357; 56832]) None) = false.
Proof.
  exact (proj2 (proj2
    (preview_cuts_at_code_units (str "0123456789abcd" ++ [55357; 56832]) None))
    55357 eq_refl eq_refl eq_refl eq_refl).
Defined.

Lemma whereToOpenLink_cases C event w bg :
  whereToOpenLink C event = Some (w, bg) ->
  (w = str "tab" /\ bg = false
     /\ (button event = MOUSE_BUTTON_MIDDLE_BUTTON
         \/ button event = MOUSE_BUTTON_LEFT_BUTTON /\ shiftKey event = false
            /\ (ctrlKey event = true \/ loadInBackground C = false)))
  \/ (w = str "current" /\ bg = false /\ button event = MOUSE_BUTTON_RIGHT_BUTTON)
  \/ (w = str "window" /\ bg = false
        /\ button event = MOUSE_BUTTON_LEFT_BUTTON /\ shiftKey event = true)
  \/ (w = str "tabshifted" /\ bg = true
        /\ button event = MOUSE_BUTTON_LEFT_BUTTON /\ shiftKey event = false
        /\ ctrlKey event = false /\ loadInBackground C = true).
Proof.
  unfold whereToOpenLink.
  destruct (N.eqb_spec (button event) MOUSE_BUTTON_MIDDLE_BUTTON) as [Hm|Hm].
  { intros [= <- <-]. left. auto. }
  destruct (N.eqb_spec (button event) MOUSE_BUTTON_RIGHT_BUTTON) as [Hr|Hr].
  { intros [= <- <-]. right; left. auto. }
  destruct (N.eqb_spec (button event) MOUSE_BUTTON_LEFT_BUTTON) as [Hl|Hl]; [|done].
  destruct (shiftKey event) eqn:Hs.
  { intros [= <- <-]. right; right; left. auto. }
  destruct (ctrlKey event) eqn:Hc.
  { intros [= <- <-]. left. auto 10. }
  destruct (loadInBackground C) eqn:Hb.
  { intros [= <- <-]. right; right; right. auto 10. }
  intros [= <- <-]. left. auto 10.
Qed.

(** X18 (MCS.onMenuClicked).  Whenever the handler calls [openLinkIn], the
    address is not empty and the target is one of "tab", "current", "window"
    and "tabshifted": "current" exactly for the right button, "window"
    exactly for the left button with shift, and "tabshifted" exactly for the
    left button without shift or ctrl when the preference asks for
    background loading, which is also exactly when [inBackground] is set; so
    the preference has no effect on a middle, right or modified click. *)
Theorem click_target_follows_button P C h event mru l :
  (onMenuClicked P C h event mru).1 = Return (LinkOpened l)
  \/ (onMenuClicked P C h event mru).1 = Return (LinkFailed l) ->
  truthy (searchURI l) = true
  /\ whereToOpen l ∈ [str "tab"; str "current"; str "window"; str "tabshifted"]
  /\ (whereToOpen l = str "current" <-> button event = MOUSE_BUTTON_RIGHT_BUTTON)
  /\ (whereToOpen l = str "window"
      <-> button event = MOUSE_BUTTON_LEFT_BUTTON /\ shiftKey event = true)
  /\ (whereToOpen l = str "tabshifted"
      <-> button event = MOUSE_BUTTON_LEFT_BUTTON /\ shiftKey event = false
          /\ ctrlKey event = false /\ loadInBackground C = true)
  /\ (inBackground l = true <-> whereToOpen l = str "tabshifted").
Proof.
  unfold onMenuClicked.
  destruct (whereToOpenLink C event) as [[w bg]|] eqn:Hw; [|by intros [?|?]].
  destruct (view event) as [[|]|]; cbn [negb]; [|by intros [?|?]..].
  destruct (match target_engine event with Some e => Some e | None => mru end)
    as [e|]; [|by intros [?|?]].
  destruct (truthy (or_empty (target_searchtext event))); cbn [negb];
    [|by intros [?|?]].
  destruct (engine_submit P C h e _) as [[s|]|err]; [|by intros [?|?]..].
  destruct (truthy (spec (uri s))) eqn:Hs; cbn [negb]; [|by intros [?|?]].
  intros Hl.
  assert (l = {| searchURI := spec (uri s); whereToOpen := w;
                 link_postData := sub_postData s; inBackground := bg |}) as ->.
  { cbn [fst] in Hl.
    destruct (openLinkIn_throws C _); destruct Hl as [Hl|Hl]; congruence. }
  cbn [searchURI whereToOpen inBackground]. split; [done|].
  apply whereToOpenLink_cases in Hw.
  unfold MOUSE_BUTTON_LEFT_BUTTON, MOUSE_BUTTON_MIDDLE_BUTTON,
    MOUSE_BUTTON_RIGHT_BUTTON in *.
  assert (Hin : w ∈ [str "tab"; str "current"; str "window"; str "tabshifted"]).
  { destruct Hw as [(-> & _)|[(-> & _)|[(-> & _)|(-> & _)]]];
      repeat first [apply list_elem_of_here | apply list_elem_of_further]. }
  split; [exact Hin|]. clear Hin Hl Hs.
  destruct Hw as [(-> & -> & Hc)|[(-> & -> & Hc)|[(-> & -> & Hc & Hc')
                 |(-> & -> & Hc & Hc1 & Hc2 & Hc3)]]];
    (split; [|split; [|split]]);
    (split; intros H;
     first [ solve [vm_compute in H; discriminate]
           | solve [intuition (first [congruence | lia | reflexivity])]
           | solve [exfalso; intuition (first [congruence | lia])] ]).
Qed.

Lemma click_target_follows_button_witness :
  exists l,
    (onMenuClicked Demo.P DemoUI.C Demo.store DemoUI.click None).1 = Return (LinkOpened l)
    /\ inBackground l = true /\ truthy (searchURI l) = true.
Proof.
  eexists. split; [vm_compute; reflexivity|].
  split.
  - apply (proj2 (proj2 (proj2 (proj2 (proj2
      (click_target_follows_button Demo.P DemoUI.C Demo.store DemoUI.click None _
         (or_introl eq_refl))))))).
    reflexivity.
  - exact (proj1 (click_target_follows_button Demo.P DemoUI.C Demo.store DemoUI.click
                    None _ (or_introl eq_refl))).
Defined.

(** X19 (MCS.onMenuClicked).  The most recently used engine changes only
    when the handler has reached [openLinkIn], and then it is the clicked
    item's engine (or stays the remembered one when the target has none),
    also when [openLinkIn] throws.  When the handler returns early, or the
    engine's [getSubmission] throws or gives nothing, it is left as it
    was. *)
Theorem click_remembers_engine_when_opening P C h event mru :
  match (onMenuClicked P C h event mru).1 with
  | Return (LinkOpened l) | Return (LinkFailed l) =>
      (onMenuClicked P C h event mru).2
      = match target_engine event with Some e => Some e | None => mru end
      /\ exists e s,
           (onMenuClicked P C h event mru).2 = Some e
           /\ engine_submit P C h e (or_empty (target_searchtext event))
              = Return (Some s)
           /\ searchURI l = spec (uri s) /\ link_postData l = sub_postData s
  | Return NothingDone => (onMenuClicked P C h event mru).2 = mru
  | Throw err =>
      (onMenuClicked P C h event mru).2 = mru
      /\ exists e, (target_engine event = Some e
                    \/ target_engine event = None /\ mru = Some e)
                   /\ engine_submit P C h e (or_empty (target_searchtext event))
                      = Throw err
  end.
Proof.
  unfold onMenuClicked.
  destruct (whereToOpenLink C event) as [[w bg]|]; [|done].
  destruct (view event) as [[|]|]; cbn [negb]; [|done..].
  destruct (match target_engine event with Some e => Some e | None => mru end)
    as [e|] eqn:He; [|done].
  destruct (truthy (or_empty (target_searchtext event))); cbn [negb]; [|done].
  destruct (engine_submit P C h e _) as [[s|]|err] eqn:Hsub; [|done|].
  - destruct (truthy (spec (uri s))); cbn [negb]; [|done].
    destruct (openLinkIn_throws C _); cbn [fst snd];
      (split; [done|]; by exists e, s).
  - cbn [fst snd]. split; [done|]. exists e. split; [|done].
    destruct (target_engine event); [left; congruence|right; by split].
Qed.
